(** * GameCanvas: the session loop of the collection mini-game

    A shallow embedding of [GameCanvas] (the countdown, the collectible
    field, the per-frame simulation, the collectible part of the renderer
    and the session finalizer) together with the properties the
    specification states about them.

    Numbers.  The source works on JavaScript numbers.  The local position
    starts at (400, 300), moves by +-5 and is clamped to integer bounds; the
    scores are sums of 10, 25 and 50; times are [Date.now()] milliseconds.
    All of these are integers far below 2^53, on which the source's
    arithmetic is exact, so they are integers ([Z]) here.  The coordinates
    of a collectible are [Math.random() * 750 + 25], not integers: they are
    rationals ([Q]) here, with exact arithmetic.

    React state.  Every [useState] cell and [useRef] cell of the component
    is a field of [GameState].  A handler is a function of the state it is
    run on: the variables its closure holds are read from that state.  In
    [checkCollisions] and [updateGame] a state setter called with an updater
    function applies it to the current field at the call, which is what
    React does when no update of the component is pending;
    [checkCollisionsQueued] and [updateGameScheduled] have the updater
    queued, which is what React does otherwise.  [endGame] takes the
    variables of its closure as arguments; [endGameFromInterval] is the call
    the countdown makes, with the closure of the first render. *)

From Stdlib Require Import ZArith QArith Qround List Lia Lra Bool Reals.
From Stdlib Require Import Sorting.Sorted Sorting.Permutation.
From Stdlib Require Import Strings.String Strings.Ascii.
From Stdlib Require Import Numbers.DecimalString.
From stdpp Require Import gmap strings.
Import ListNotations.

Open Scope Z_scope.

(* ===================================================================== *)
(** ** Data model *)
(* ===================================================================== *)

(** [type: 'coin' | 'gem' | 'star'] *)
Inductive CollectibleType := coin | gem | star.

Definition CollectibleType_eqb (a b : CollectibleType) : bool :=
  match a, b with
  | coin, coin | gem, gem | star, star => true
  | _, _ => false
  end.

(** [interface Collectible] *)
Record Collectible := mkCollectible {
  c_id : string;
  c_x : Q;
  c_y : Q;
  c_type : CollectibleType;
  c_value : Z;
  c_collected : bool
}.

(** [interface Position] *)
Record Position := mkPosition { p_x : Z; p_y : Z }.

(** [type Player] (the fields the session loop reads). *)
Record Player := mkPlayer {
  pl_id : string;
  pl_username : string;
  pl_total_score : Z;
  pl_games_played : Z;
  pl_wins : Z
}.

(** [type RoomPlayer] (the fields the session loop reads). *)
Record RoomPlayer := mkRoomPlayer {
  rp_id : string;
  rp_player_id : string;
  rp_position_x : Z;
  rp_position_y : Z;
  rp_score : Z;
  rp_is_ready : bool
}.

(** The [useState] and [useRef] cells of [GameCanvas]. *)
Record GameState := mkGameState {
  collectibles : list Collectible;
  myPosition : Position;
  myScore : Z;
  gameTime : Z;
  lastUpdateTime : Z
}.

(** What the component sends out: the two callbacks it is given. *)
Inductive Event :=
| PositionUpdate (x y : Z)
| ScoreUpdate (score : Z).

(** The writes [endGame] issues against the remote store. *)
Inductive RemoteWrite :=
| InsertGameScore (room_id player_id : string) (score rank : Z) (game_type : string)
| UpdatePlayerStats (player_id : string) (total_score games_played wins : Z)
| UpdateRoomStatus (room_id : string) (status : string).

(* ===================================================================== *)
(** ** The countdown *)
(* ===================================================================== *)

(** The updater given to [setGameTime] by the interval callback: the new
    countdown, and whether [endGame()] was called. *)
Definition timerTick (prev : Z) : Z * bool :=
  if prev <=? 1 then (0, true) else (prev - 1, false).

(** [n] firings of the one-second interval, from the countdown [t]: the
    countdown reached and the number of calls of [endGame]. The interval is
    cleared only by the effect's cleanup, when the component unmounts. *)
Fixpoint runTimer (n : nat) (t : Z) : Z * nat :=
  match n with
  | O => (t, O)
  | S n' =>
      let '(t', fired) := timerTick t in
      let '(t'', calls) := runTimer n' t' in
      (t'', if fired then S calls else calls)
  end.

(* ===================================================================== *)
(** ** The collectible field *)
(* ===================================================================== *)

Definition types : list CollectibleType := [coin; coin; coin; gem; gem; star].

(** [const values = { coin: 10, gem: 25, star: 50 }] *)
Definition values (t : CollectibleType) : Z :=
  match t with coin => 10 | gem => 25 | star => 50 end.

(** [types[Math.floor(r * types.length)]]; an index outside the array reads
    [undefined] in the source, which is no [Collectible] type: [None]. The
    product is exact here and rounded to binary64 in the source: a draw
    just below a multiple of 1/6 can give the next index there (see
    [drawMargin]). *)
Definition pickType (r : Q) : option CollectibleType :=
  let i := Qfloor (r * inject_Z (Z.of_nat (length types))) in
  if i <? 0 then None else nth_error types (Z.to_nat i).

(** The template string [`${Date.now()}-${i}`]. *)
Definition collectibleId (now : Z) (i : nat) : string :=
  (NilZero.string_of_int (Z.to_int now) ++ "-" ++
   NilZero.string_of_uint (Nat.to_uint i))%string.

(** One iteration of the loop of [initializeCollectibles]. [clock i] is what
    [Date.now()] returns in iteration [i]; [rnd k] is what the [k]-th call of
    [Math.random()] returns (three calls per iteration: type, x, y). *)
Definition makeCollectible (clock : nat -> Z) (rnd : nat -> Q) (i : nat)
  : option Collectible :=
  match pickType (rnd (3 * i)%nat) with
  | None => None
  | Some type =>
      Some {| c_id := collectibleId (clock i) i;
              c_x := (rnd (3 * i + 1)%nat * 750 + 25)%Q;
              c_y := (rnd (3 * i + 2)%nat * 550 + 25)%Q;
              c_type := type;
              c_value := values type;
              c_collected := false |}
  end.

(** [for (let i = from; i < from + n; i++) items.push(...)] *)
Fixpoint pushCollectibles (clock : nat -> Z) (rnd : nat -> Q) (from n : nat)
  : option (list Collectible) :=
  match n with
  | O => Some []
  | S n' =>
      match makeCollectible clock rnd from with
      | None => None
      | Some item =>
          match pushCollectibles clock rnd (S from) n' with
          | None => None
          | Some items => Some (item :: items)
          end
      end
  end.

Definition initializeCollectibles (clock : nat -> Z) (rnd : nat -> Q)
  : option (list Collectible) :=
  pushCollectibles clock rnd 0 20.

(** The number of the [length types] equally likely indices that give the
    kind [t]: its weight in the pool. *)
Definition weight (t : CollectibleType) : nat :=
  length (List.filter (CollectibleType_eqb t) types).

(** The state of the component once the mount effect has run. *)
Definition initialState (items : list Collectible) : GameState :=
  {| collectibles := items;
     myPosition := {| p_x := 400; p_y := 300 |};
     myScore := 0;
     gameTime := 60;
     lastUpdateTime := 0 |}.

(* ===================================================================== *)
(** ** The simulation tick *)
(* ===================================================================== *)

(** [keysPressed.current.has(k)] *)
Definition has (keys : gset string) (k : string) : bool :=
  bool_decide (k ∈ keys).

Definition heldUp (keys : gset string) : bool := has keys "arrowup" || has keys "w".
Definition heldDown (keys : gset string) : bool := has keys "arrowdown" || has keys "s".
Definition heldLeft (keys : gset string) : bool := has keys "arrowleft" || has keys "a".
Definition heldRight (keys : gset string) : bool := has keys "arrowright" || has keys "d".

Definition Qltb (a b : Q) : bool := negb (Qle_bool b a).

(** [Math.sqrt(dx * dx + dy * dy) < playerRadius + 15], decided on the
    squares (both sides are non-negative) in exact arithmetic. The source
    rounds to binary64 at every step: for an item whose distance is within
    rounding of the bound it can decide the other way (see [insideRange]
    and [outsideRange]). *)
Definition collides (playerRadius : Z) (x y : Z) (item : Collectible) : bool :=
  let dx := (c_x item - inject_Z x)%Q in
  let dy := (c_y item - inject_Z y)%Q in
  Qltb (dx * dx + dy * dy)
       (inject_Z ((playerRadius + 15) * (playerRadius + 15))).

(** The callback of [prev.map] in [checkCollisions], with the two variables
    it assigns ([newScore], [scoreChanged]) threaded through. *)
Definition collectItem (x y : Z) (item : Collectible) (acc : Z * bool)
  : Collectible * (Z * bool) :=
  let playerRadius := 20 in
  let '(newScore, scoreChanged) := acc in
  if c_collected item then (item, acc)
  else if collides playerRadius x y item then
    ({| c_id := c_id item; c_x := c_x item; c_y := c_y item;
        c_type := c_type item; c_value := c_value item;
        c_collected := true |},
     (newScore + c_value item, true))
  else (item, acc).

(** [prev.map(...)], left to right. *)
Fixpoint collectMap (x y : Z) (prev : list Collectible) (acc : Z * bool)
  : list Collectible * (Z * bool) :=
  match prev with
  | [] => ([], acc)
  | item :: rest =>
      let '(item', acc') := collectItem x y item acc in
      let '(rest', acc'') := collectMap x y rest acc' in
      (item' :: rest', acc'')
  end.

Definition setCollectibles (items : list Collectible) (st : GameState) : GameState :=
  {| collectibles := items; myPosition := myPosition st; myScore := myScore st;
     gameTime := gameTime st; lastUpdateTime := lastUpdateTime st |}.

Definition setMyPosition (p : Position) (st : GameState) : GameState :=
  {| collectibles := collectibles st; myPosition := p; myScore := myScore st;
     gameTime := gameTime st; lastUpdateTime := lastUpdateTime st |}.

Definition setMyScore (s : Z) (st : GameState) : GameState :=
  {| collectibles := collectibles st; myPosition := myPosition st; myScore := s;
     gameTime := gameTime st; lastUpdateTime := lastUpdateTime st |}.

Definition setLastUpdateTime (t : Z) (st : GameState) : GameState :=
  {| collectibles := collectibles st; myPosition := myPosition st;
     myScore := myScore st; gameTime := gameTime st; lastUpdateTime := t |}.

(** [checkCollisions(x, y)], called with the score [score0] its closure
    holds; [st] is the state the setters act on. The updater runs at the
    call of [setCollectibles]; [checkCollisionsQueued] is the function when
    React queues it. *)
Definition checkCollisions (score0 : Z) (x y : Z) (st : GameState)
  : GameState * list Event :=
  let '(items, (newScore, scoreChanged)) :=
    collectMap x y (collectibles st) (score0, false) in
  let st1 := setCollectibles items st in
  if scoreChanged && negb (newScore =? score0)
  then (setMyScore newScore st1, [ScoreUpdate newScore])
  else (st1, []).

(** The time gate at the head of [updateGame]. *)
Definition gated (now : Z) (st : GameState) : bool :=
  now - lastUpdateTime st <? 16.

(** The candidate position before clamping. *)
Definition candidate (keys : gset string) (p : Position) : Z * Z :=
  let speed := 5 in
  let newX := p_x p in
  let newY := p_y p in
  let newY := if heldUp keys then newY - speed else newY in
  let newY := if heldDown keys then newY + speed else newY in
  let newX := if heldLeft keys then newX - speed else newX in
  let newX := if heldRight keys then newX + speed else newX in
  (newX, newY).

(** [updateGame()], run at time [now] with the keys [keys] held. *)
Definition updateGame (now : Z) (keys : gset string) (st : GameState)
  : GameState * list Event :=
  if gated now st then (st, [])
  else
    let '(newX, newY) := candidate keys (myPosition st) in
    let newX := Z.max 20 (Z.min 780 newX) in
    let newY := Z.max 20 (Z.min 580 newY) in
    let '(st1, ev1) :=
      if negb (newX =? p_x (myPosition st)) || negb (newY =? p_y (myPosition st))
      then
        let st' := setMyPosition {| p_x := newX; p_y := newY |} st in
        if now - lastUpdateTime st >? 50
        then (setLastUpdateTime now st', [PositionUpdate newX newY])
        else (st', [])
      else (st, []) in
    let '(st2, ev2) := checkCollisions (myScore st) newX newY st1 in
    (st2, ev1 ++ ev2).

(** An animation frame: the time [Date.now()] returns in it and the keys
    held during it. *)
Definition Frame : Type := Z * gset string.

(** The frames of a session in order; the events sent out, each with the
    time of its frame. *)
Fixpoint runFrames (frames : list Frame) (st : GameState)
  : GameState * list (Z * Event) :=
  match frames with
  | [] => (st, [])
  | (now, keys) :: rest =>
      let '(st1, ev) := updateGame now keys st in
      let '(st2, log) := runFrames rest st1 in
      (st2, List.map (fun e => (now, e)) ev ++ log)
  end.

(** The times at which [onPositionUpdate] was called. *)
Fixpoint pushTimes (log : list (Z * Event)) : list Z :=
  match log with
  | [] => []
  | (t, PositionUpdate _ _) :: rest => t :: pushTimes rest
  | (_, ScoreUpdate _) :: rest => pushTimes rest
  end.

(* ===================================================================== *)
(** ** The renderer, collectible part *)
(* ===================================================================== *)

(** The shape drawn for a collectible, at its position. *)
Inductive Drawn :=
| DrawCoin (x y : Q)
| DrawGem (x y : Q)
| DrawStar (x y : Q).

(** The [collectibles.forEach] loop of [renderGame]. *)
Fixpoint renderCollectibles (items : list Collectible) : list Drawn :=
  match items with
  | [] => []
  | item :: rest =>
      if c_collected item then renderCollectibles rest
      else
        match c_type item with
        | coin => DrawCoin (c_x item) (c_y item)
        | gem => DrawGem (c_x item) (c_y item)
        | star => DrawStar (c_x item) (c_y item)
        end :: renderCollectibles rest
  end.

(* ===================================================================== *)
(** ** The session finalizer *)
(* ===================================================================== *)

(** The score the comparator of [endGame] reads for a participant. *)
Definition scoreOf (me : string) (myScore : Z) (rp : RoomPlayer) : Z :=
  if String.eqb (rp_player_id rp) me then myScore else rp_score rp.

(** [(a, b) => scoreB - scoreA] *)
Definition compareScores (me : string) (myScore : Z) (a b : RoomPlayer) : Z :=
  scoreOf me myScore b - scoreOf me myScore a.

Section Sort.
Context {A : Type} (cmp : A -> A -> Z).

(** [x] goes before the first element it does not have to follow. *)
Fixpoint insertBy (x : A) (l : list A) : list A :=
  match l with
  | [] => [x]
  | y :: rest => if cmp x y <=? 0 then x :: y :: rest else y :: insertBy x rest
  end.

(** [[...l].sort(cmp)]: [Array.prototype.sort] is a stable sort; this is
    the stable insertion sort. *)
Definition sortBy (l : list A) : list A := fold_right insertBy [] l.

(** [l.findIndex(p)], counting from [i]. *)
Fixpoint findIndexFrom (p : A -> bool) (l : list A) (i : Z) : Z :=
  match l with
  | [] => -1
  | x :: rest => if p x then i else findIndexFrom p rest (i + 1)
  end.

Definition findIndex (p : A -> bool) (l : list A) : Z := findIndexFrom p l 0.
End Sort.

Definition isMe (me : string) (rp : RoomPlayer) : bool :=
  String.eqb (rp_player_id rp) me.

Definition sortedPlayers (me : string) (myScore : Z) (roomPlayers : list RoomPlayer)
  : list RoomPlayer :=
  sortBy (compareScores me myScore) roomPlayers.

Definition myRank (me : string) (myScore : Z) (roomPlayers : list RoomPlayer) : Z :=
  findIndex (isMe me) (sortedPlayers me myScore roomPlayers) + 1.

(** [endGame()], on the variables its closure holds: the three writes, in
    the order they are awaited. *)
Definition endGame (roomId : string) (player : Player)
    (roomPlayers : list RoomPlayer) (gameType : string) (myScore : Z)
  : list RemoteWrite :=
  let rank := myRank (pl_id player) myScore roomPlayers in
  let isWinner := rank =? 1 in
  [ InsertGameScore roomId (pl_id player) myScore rank gameType;
    UpdatePlayerStats (pl_id player)
      (pl_total_score player + myScore)
      (pl_games_played player + 1)
      (if isWinner then pl_wins player + 1 else pl_wins player);
    UpdateRoomStatus roomId "finished" ].

(* ===================================================================== *)
(** ** Vocabulary of the properties *)
(* ===================================================================== *)

(** The arena of 800 x 600 with its margin of 20. *)
Definition inArena (p : Position) : Prop :=
  20 <= p_x p <= 780 /\ 20 <= p_y p <= 580.

(** One vertical and one horizontal direction are in effect. *)
Definition diagonal (keys : gset string) : bool :=
  xorb (heldUp keys) (heldDown keys) && xorb (heldLeft keys) (heldRight keys).

(** Exactly one of the four directions is held. *)
Definition singleDirection (keys : gset string) : bool :=
  match heldUp keys, heldDown keys, heldLeft keys, heldRight keys with
  | true, false, false, false
  | false, true, false, false
  | false, false, true, false
  | false, false, false, true => true
  | _, _, _, _ => false
  end.

(** The Euclidean distance between two positions. *)
Definition displacement (p q : Position) : R :=
  sqrt (IZR ((p_x q - p_x p) * (p_x q - p_x p) + (p_y q - p_y p) * (p_y q - p_y p))).

(** Each push is more than 50 ms after [last], the previous one. *)
Fixpoint spacedFrom (last : Z) (times : list Z) : Prop :=
  match times with
  | [] => True
  | t :: rest => 50 < t - last /\ spacedFrom t rest
  end.

(** The sum of the values of the collected items. *)
Fixpoint collectedValue (items : list Collectible) : Z :=
  match items with
  | [] => 0
  | item :: rest =>
      (if c_collected item then c_value item else 0) + collectedValue rest
  end.

(** The sum of the values of the uncollected items within collision
    distance of (x, y). *)
Fixpoint gain (x y : Z) (items : list Collectible) : Z :=
  match items with
  | [] => 0
  | item :: rest =>
      (if negb (c_collected item) && collides 20 x y item then c_value item else 0)
      + gain x y rest
  end.

(** An uncollected item is within collision distance of (x, y). *)
Definition hits (x y : Z) (items : list Collectible) : bool :=
  existsb (fun item => negb (c_collected item) && collides 20 x y item) items.

(** The first half of [updateGame], up to the call of [checkCollisions]. *)
Definition movePlayer (now : Z) (keys : gset string) (st : GameState)
  : GameState * list Event :=
  let newX := Z.max 20 (Z.min 780 (fst (candidate keys (myPosition st)))) in
  let newY := Z.max 20 (Z.min 580 (snd (candidate keys (myPosition st)))) in
  if negb (newX =? p_x (myPosition st)) || negb (newY =? p_y (myPosition st))
  then
    let st' := setMyPosition {| p_x := newX; p_y := newY |} st in
    if now - lastUpdateTime st >? 50
    then (setLastUpdateTime now st', [PositionUpdate newX newY])
    else (st', [])
  else (st, []).

(** [st] and [tw] agree on everything but the collectibles, and those of
    [tw] are those of [st] without the item [c] at index [n]. *)
Definition twins (c : Collectible) (n : nat) (st tw : GameState) : Prop :=
  exists l1 l2,
    collectibles st = l1 ++ c :: l2 /\ collectibles tw = l1 ++ l2 /\
    length l1 = n /\
    myPosition st = myPosition tw /\ myScore st = myScore tw /\
    lastUpdateTime st = lastUpdateTime tw /\ gameTime st = gameTime tw.

(** Descending in the score [key]: every element is at least as high as
    every later one. *)
Definition descending {A : Type} (key : A -> Z) : list A -> Prop :=
  StronglySorted (fun a b => key b <= key a).

(* ===================================================================== *)
(** ** A worked session *)
(* ===================================================================== *)

(** A clock and a source of random numbers: the draws cycle through
    0/7, 1/7, ..., 6/7. *)
Definition sampleClock (i : nat) : Z := 1700000000000 + Z.of_nat i.

Definition sampleRnd (k : nat) : Q := Z.of_nat (k mod 7) # 7.

(** The field these generate. Items 1, 8 and 15 are coins at the same
    place, (3175/7, 2925/7). *)
Definition sampleItems : list Collectible :=
  Eval vm_compute in
    match initializeCollectibles sampleClock sampleRnd with
    | Some items => items
    | None => []
    end.

(** [n] frames, [step] ms apart, with the same keys held. *)
Fixpoint holdKeys (keys : gset string) (start step : Z) (n : nat) : list Frame :=
  match n with
  | O => []
  | S n' => (start, keys) :: holdKeys keys (start + step) step n'
  end.

(** Down and right for 11 frames, then down for 6: the player comes within
    collision distance of the three coins in the last frame. *)
Definition sampleFrames : list Frame :=
  holdKeys {["s"; "d"]} 1000 20 11 ++ holdKeys {["s"]} 1220 20 6.

Definition sampleState : GameState :=
  fst (runFrames sampleFrames (initialState sampleItems)).

(** The coin at index 1, as it is in [sampleState]: collected. *)
Definition sampleCoin : Collectible :=
  Eval vm_compute in
    match nth_error (collectibles sampleState) 1 with
    | Some c => c
    | None => mkCollectible "" 0 0 coin 0 false
    end.

(** Up for 3 frames and down again for 3, around the collected coins. *)
Definition laterFrames : list Frame :=
  holdKeys {["w"]} 1340 20 3 ++ holdKeys {["s"]} 1400 20 3.

Definition samplePlayer : Player :=
  {| pl_id := "me"; pl_username := "me";
     pl_total_score := 120; pl_games_played := 3; pl_wins := 1 |}.

(** A room in which the mirror of the local participant is stale (score 0)
    and another participant has the local score, 30. *)
Definition sampleRoom : list RoomPlayer :=
  [ mkRoomPlayer "rp-1" "alice" 100 100 10 true;
    mkRoomPlayer "rp-2" "me" 400 300 0 true;
    mkRoomPlayer "rp-3" "bob" 200 200 30 true;
    mkRoomPlayer "rp-4" "carol" 300 300 25 true ].

(** The room of the specification's ranking example: scores 30, 50, 50,
    10, the local participant at index 1. *)
Definition specRoom : list RoomPlayer :=
  [ mkRoomPlayer "rp-1" "alice" 100 100 30 true;
    mkRoomPlayer "rp-2" "me" 400 300 50 true;
    mkRoomPlayer "rp-3" "bob" 200 200 50 true;
    mkRoomPlayer "rp-4" "carol" 300 300 10 true ].

(* ===================================================================== *)
(** ** The input sampler *)
(* ===================================================================== *)

(** The keys [handleKeyDown] accepts, as [e.key] names them. *)
Definition mappedKeys : list string :=
  ["ArrowUp"; "ArrowDown"; "ArrowLeft"; "ArrowRight"; "w"; "a"; "s"; "d"].

(** [String.prototype.toLowerCase] on the ASCII letters; other characters
    are left as they are. The names in [mappedKeys] are ASCII, and no name
    with a character outside ASCII lower-cases to one of their lower-case
    forms, which is all the handlers use the result for. *)
Definition toLowerAscii (c : ascii) : ascii :=
  let n := nat_of_ascii c in
  if ((65 <=? n) && (n <=? 90))%nat then ascii_of_nat (n + 32) else c.

Fixpoint toLowerCase (s : string) : string :=
  match s with
  | EmptyString => EmptyString
  | String c rest => String (toLowerAscii c) (toLowerCase rest)
  end.

(** [mappedKeys.includes(key)] *)
Definition isMapped (key : string) : bool := existsb (String.eqb key) mappedKeys.

(** [handleKeyDown]: the new key set, and whether [e.preventDefault()] was
    called. *)
Definition handleKeyDown (key : string) (keys : gset string) : gset string * bool :=
  if isMapped key then ({[ toLowerCase key ]} ∪ keys, true) else (keys, false).

(** [handleKeyUp] *)
Definition handleKeyUp (key : string) (keys : gset string) : gset string :=
  keys ∖ {[ toLowerCase key ]}.

(** A keyboard event the window delivers, with its [e.key]. *)
Inductive KeyEvent :=
| KeyDown (key : string)
| KeyUp (key : string).

Definition handleKeyEvent (e : KeyEvent) (keys : gset string) : gset string :=
  match e with
  | KeyDown key => fst (handleKeyDown key keys)
  | KeyUp key => handleKeyUp key keys
  end.

(** The events in order. *)
Fixpoint handleKeyEvents (events : list KeyEvent) (keys : gset string) : gset string :=
  match events with
  | [] => keys
  | e :: rest => handleKeyEvents rest (handleKeyEvent e keys)
  end.

(** The identifiers the simulation tick looks for. *)
Definition keyIds : list string :=
  ["arrowup"; "arrowdown"; "arrowleft"; "arrowright"; "w"; "a"; "s"; "d"].

(** Whether the identifier [id] is held after the events: a press of a
    mapped key with that identifier sets it, a release of any key with that
    identifier clears it, other events leave it. *)
Fixpoint heldAfter (id : string) (events : list KeyEvent) (held : bool) : bool :=
  match events with
  | [] => held
  | KeyDown key :: rest =>
      heldAfter id rest
        (if isMapped key && String.eqb (toLowerCase key) id then true else held)
  | KeyUp key :: rest =>
      heldAfter id rest (if String.eqb (toLowerCase key) id then false else held)
  end.

(* ===================================================================== *)
(** ** The header of the canvas *)
(* ===================================================================== *)

(** [n.toString()] of an integer. *)
Definition toString (n : Z) : string := NilZero.string_of_int (Z.to_int n).

(** [s.padStart(n, c)] with a one-character pad. *)
Definition padStart (n : nat) (c : ascii) (s : string) : string :=
  let fix pad (k : nat) : string :=
    match k with
    | O => s
    | S k' => String c (pad k')
    end in
  pad (n - String.length s)%nat.

(** The clock of the header:
    [{Math.floor(gameTime / 60)}:{(gameTime % 60).toString().padStart(2, '0')}]. *)
Definition formatTime (gameTime : Z) : string :=
  (toString (gameTime / 60) ++ ":" ++ padStart 2 "0" (toString (Z.rem gameTime 60)))%string.

(** [gameTime === 0 && <Game Over overlay>] *)
Definition gameOverShown (gameTime : Z) : bool := gameTime =? 0.

(** The value of a decimal digit. *)
Definition digitValue (c : ascii) : option Z :=
  let n := nat_of_ascii c in
  if ((48 <=? n) && (n <=? 57))%nat then Some (Z.of_nat (n - 48)) else None.

(** Reads a clock of the shape m:ss back into seconds. *)
Definition readClock (s : string) : option Z :=
  match s with
  | String m (String colon (String a (String b EmptyString))) =>
      if Ascii.eqb colon ":" then
        match digitValue m, digitValue a, digitValue b with
        | Some m', Some a', Some b' => Some (m' * 60 + a' * 10 + b')
        | _, _, _ => None
        end
      else None
  | _ => None
  end.

(* ===================================================================== *)
(** ** Vocabulary for the events of a run *)
(* ===================================================================== *)

(** The latest score sent with [onScoreUpdate], or [score0] if none was. *)
Fixpoint lastScorePushed (log : list (Z * Event)) (score0 : Z) : Z :=
  match log with
  | [] => score0
  | (_, ScoreUpdate s) :: rest => lastScorePushed rest s
  | (_, PositionUpdate _ _) :: rest => lastScorePushed rest score0
  end.

(** What a tick may change of an item: nothing but the flag, and that only
    from unset to set. *)
Definition sameItem (old new : Collectible) : Prop :=
  c_id new = c_id old /\ c_x new = c_x old /\ c_y new = c_y old /\
  c_type new = c_type old /\ c_value new = c_value old /\
  (c_collected old = true -> c_collected new = true).

(** The number of uncollected items. *)
Definition remaining (items : list Collectible) : nat :=
  length (List.filter (fun c => negb (c_collected c)) items).

(** Two positions are the same point. *)
Definition samePosition (p q : Position) : bool :=
  (p_x p =? p_x q) && (p_y p =? p_y q).

(** A tick calls [onPositionUpdate]: it passed the time gate, moved the
    player, and more than 50 ms have passed since the stored time. *)
Definition pushesPosition (now : Z) (st st' : GameState) : bool :=
  negb (gated now st) && negb (samePosition (myPosition st') (myPosition st))
  && (now - lastUpdateTime st >? 50).

(** Two room lists that differ at most in what they mirror of the local
    participant [me]. *)
Definition sameButMirrorOf (me : string) (a b : RoomPlayer) : Prop :=
  rp_player_id a = rp_player_id b /\
  (rp_player_id a <> me -> rp_score a = rp_score b).

(* ===================================================================== *)
(** ** The room around the canvas *)
(* ===================================================================== *)

(** [type GameRoom] (the fields the components read). *)
Record GameRoom := mkGameRoom {
  gr_id : string;
  gr_host_player_id : string;
  gr_max_players : Z;
  gr_current_players : Z;
  gr_game_type : string;
  gr_status : string
}.

(** The writes [GameRoom] issues against the remote store. *)
Inductive RoomWrite :=
| StartRoom (room_id : string) (started_at : string)
| UpdateParticipantReady (id : string) (is_ready : bool)
| UpdateParticipantPosition (id : string) (x y : Z)
| UpdateParticipantScore (id : string) (score : Z)
| DeleteParticipant (id : string)
| UpdateRoomCount (room_id : string) (current_players : Z)
| DeleteRoom (room_id : string).

(** [roomPlayers.every(rp => rp.is_ready || rp.player_id === player.id)] *)
Definition allReady (playerId : string) (roomPlayers : list RoomPlayer) : bool :=
  forallb (fun rp => rp_is_ready rp || String.eqb (rp_player_id rp) playerId) roomPlayers.

(** [startGame()]; [room] is [None] while the room has not loaded, [nowIso]
    is [new Date().toISOString()]. *)
Definition startGame (room : option GameRoom) (playerId : string)
    (roomPlayers : list RoomPlayer) (roomId : string) (nowIso : string)
  : list RoomWrite :=
  let isHost :=
    match room with
    | Some r => String.eqb (gr_host_player_id r) playerId
    | None => false
    end in
  if negb isHost then []
  else
    if negb (allReady playerId roomPlayers) || (Z.of_nat (length roomPlayers) <? 2)
    then []
    else [StartRoom roomId nowIso].

(** [canStart], which enables the Start Game button of a loaded room. *)
Definition canStart (room : GameRoom) (playerId : string)
    (roomPlayers : list RoomPlayer) : bool :=
  let isHost := String.eqb (gr_host_player_id room) playerId in
  isHost && (Z.of_nat (length roomPlayers) >=? 2)%Z &&
  forallb (fun rp => rp_is_ready rp || String.eqb (rp_player_id rp) playerId) roomPlayers.

(** [updatePlayerPosition(x, y)], the [onPositionUpdate] of the canvas. *)
Definition updatePlayerPosition (myRoomPlayer : option RoomPlayer) (x y : Z)
  : list RoomWrite :=
  match myRoomPlayer with
  | None => []
  | Some rp => [UpdateParticipantPosition (rp_id rp) x y]
  end.

(** [updatePlayerScore(score)], the [onScoreUpdate] of the canvas. *)
Definition updatePlayerScore (myRoomPlayer : option RoomPlayer) (score : Z)
  : list RoomWrite :=
  match myRoomPlayer with
  | None => []
  | Some rp => [UpdateParticipantScore (rp_id rp) score]
  end.

(** The canvas calling the two callbacks it was given. *)
Definition publish (myRoomPlayer : option RoomPlayer) (e : Event) : list RoomWrite :=
  match e with
  | PositionUpdate x y => updatePlayerPosition myRoomPlayer x y
  | ScoreUpdate score => updatePlayerScore myRoomPlayer score
  end.

(** All the writes a run of frames causes, in order. *)
Definition publishRun (myRoomPlayer : option RoomPlayer) (frames : list Frame)
    (st : GameState) : list RoomWrite :=
  flat_map (fun te => publish myRoomPlayer (snd te)) (snd (runFrames frames st)).

(** A write that touches only the row [id] of room_players, with a position
    inside the arena if it writes one. *)
Definition ownRowWrite (id : string) (w : RoomWrite) : Prop :=
  match w with
  | UpdateParticipantPosition id' x y => id' = id /\ inArena {| p_x := x; p_y := y |}
  | UpdateParticipantScore id' _ => id' = id
  | _ => False
  end.

(** The score of the latest score write, or [score0] if there is none. *)
Fixpoint lastScoreWritten (writes : list RoomWrite) (score0 : Z) : Z :=
  match writes with
  | [] => score0
  | UpdateParticipantScore _ s :: rest => lastScoreWritten rest s
  | _ :: rest => lastScoreWritten rest score0
  end.

(* ===================================================================== *)
(** ** Text the user types *)
(* ===================================================================== *)

(** A JavaScript string as its sequence of UTF-16 code units, which is what
    [length] counts and [trim] works on. *)
Definition JsString : Type := list N.

(** The code units [String.prototype.trim] removes: WhiteSpace (TAB, VT,
    FF, SP, NBSP, ZWNBSP and the space separators) and LineTerminator (LF,
    CR, LS, PS). *)
Definition isWhiteSpace (c : N) : bool :=
  (existsb (N.eqb c)
     [9; 10; 11; 12; 13; 32; 160; 5760; 8232; 8233; 8239; 8287; 12288; 65279]
   || ((8192 <=? c) && (c <=? 8202)))%N.

Fixpoint trimStart (s : JsString) : JsString :=
  match s with
  | [] => []
  | c :: rest => if isWhiteSpace c then trimStart rest else s
  end.

Definition trimEnd (s : JsString) : JsString := rev (trimStart (rev s)).

(** [s.trim()] *)
Definition trim (s : JsString) : JsString := trimEnd (trimStart s).

(** Neither the first nor the last code unit is white space. *)
Definition noOuterSpace (s : JsString) : Prop :=
  match s with [] => True | c :: _ => isWhiteSpace c = false end /\
  match rev s with [] => True | c :: _ => isWhiteSpace c = false end.

(** The state of [Login]. *)
Record LoginState := mkLoginState {
  lg_username : JsString;
  lg_loading : bool;
  lg_error : string
}.

(** [handleSubmit] of [Login]. [onLogin name] tells whether the promise of
    [onLogin(name)] resolves ([true]) or rejects. The result is the state
    afterwards and the names [onLogin] was called with. *)
Definition loginSubmit (onLogin : JsString -> bool) (st : LoginState)
  : LoginState * list JsString :=
  if (length (trim (lg_username st)) <? 3)%nat then
    ({| lg_username := lg_username st; lg_loading := lg_loading st;
        lg_error := "Username must be at least 3 characters" |}, [])
  else
    let name := trim (lg_username st) in
    if onLogin name then
      ({| lg_username := lg_username st; lg_loading := false; lg_error := "" |},
       [name])
    else
      ({| lg_username := lg_username st; lg_loading := false;
          lg_error := "Username already taken. Please choose another." |},
       [name]).

(** A row [sendMessage] inserts into chat_messages. *)
Record ChatInsert := mkChatInsert {
  ci_room_id : string;
  ci_player_id : string;
  ci_message : JsString
}.

(** [sendMessage] of [GameRoom]: the content of the input afterwards and
    the rows inserted. *)
Definition sendMessage (roomId playerId : string) (messageInput : JsString)
  : JsString * list ChatInsert :=
  match trim messageInput with
  | [] => (messageInput, [])
  | _ :: _ =>
      ([], [ {| ci_room_id := roomId; ci_player_id := playerId;
                ci_message := trim messageInput |} ])
  end.

(** The state of the create-room dialog of [Lobby]. *)
Record LobbyState := mkLobbyState {
  lb_roomName : JsString;
  lb_gameType : string;
  lb_loading : bool;
  lb_showCreateModal : bool
}.

(** A row [createRoom] inserts into game_rooms. *)
Record RoomInsert := mkRoomInsert {
  ri_name : JsString;
  ri_host_player_id : string;
  ri_game_type : string;
  ri_current_players : Z
}.

(** [createRoom] of [Lobby]. [insert row] is the id of the new room, or
    [None] when the insert fails. The result is the state afterwards, the
    rows inserted and the rooms [onJoinRoom] was called with. *)
Definition createRoom (insert : RoomInsert -> option string) (playerId : string)
    (st : LobbyState) : LobbyState * list RoomInsert * list string :=
  if (length (trim (lb_roomName st)) <? 3)%nat then (st, [], [])
  else
    let row := {| ri_name := trim (lb_roomName st); ri_host_player_id := playerId;
                  ri_game_type := lb_gameType st; ri_current_players := 0 |} in
    match insert row with
    | Some id =>
        ({| lb_roomName := []; lb_gameType := lb_gameType st;
            lb_loading := false; lb_showCreateModal := false |}, [row], [id])
    | None =>
        ({| lb_roomName := lb_roomName st; lb_gameType := lb_gameType st;
            lb_loading := false; lb_showCreateModal := lb_showCreateModal st |},
         [row], [])
    end.

(** [disabled={loading || roomName.trim().length < 3}] of the Create button. *)
Definition createDisabled (st : LobbyState) : bool :=
  lb_loading st || (length (trim (lb_roomName st)) <? 3)%nat.

(* ===================================================================== *)
(** ** The player hook and the application shell *)
(* ===================================================================== *)

(** What the query of [loadPlayer] comes back with: an error, no row, or
    the row. *)
Inductive Lookup :=
| LookupError
| LookupNone
| LookupRow (p : Player).

(** What [usePlayer] asks of the remote store. *)
Inductive PlayerOp :=
| SelectPlayer (id : string)
| TouchLastSeen (id : string) (last_seen : string)
| InsertPlayer (username : JsString) (avatar_color : option string).

(** The state of [App] with its [usePlayer] hook, and [localStorage]. *)
Record AppState := mkAppState {
  ap_player : option Player;
  ap_loading : bool;
  ap_currentRoomId : option string;
  ap_storage : gmap string string
}.

(** The state of a freshly loaded page: the initial values of the state
    cells, and the storage the browser kept. *)
Definition pageLoad (storage : gmap string string) : AppState :=
  {| ap_player := None; ap_loading := true; ap_currentRoomId := None;
     ap_storage := storage |}.

Definition setLoadingDone (st : AppState) : AppState :=
  {| ap_player := ap_player st; ap_loading := false;
     ap_currentRoomId := ap_currentRoomId st; ap_storage := ap_storage st |}.

Definition setPlayer (p : option Player) (st : AppState) : AppState :=
  {| ap_player := p; ap_loading := ap_loading st;
     ap_currentRoomId := ap_currentRoomId st; ap_storage := ap_storage st |}.

(** [localStorage.removeItem('playerId')] *)
Definition forgetPlayerId (st : AppState) : AppState :=
  {| ap_player := ap_player st; ap_loading := ap_loading st;
     ap_currentRoomId := ap_currentRoomId st;
     ap_storage := delete "playerId" (ap_storage st) |}.

(** [localStorage.setItem('playerId', id)] *)
Definition storePlayerId (id : string) (st : AppState) : AppState :=
  {| ap_player := ap_player st; ap_loading := ap_loading st;
     ap_currentRoomId := ap_currentRoomId st;
     ap_storage := <["playerId" := id]> (ap_storage st) |}.

(** [loadPlayer(playerId)]; [db] answers the select, [nowIso] is
    [new Date().toISOString()]. *)
Definition loadPlayer (db : string -> Lookup) (nowIso : string) (playerId : string)
    (st : AppState) : AppState * list PlayerOp :=
  match db playerId with
  | LookupError => (setLoadingDone (forgetPlayerId st), [SelectPlayer playerId])
  | LookupRow p =>
      (setLoadingDone (setPlayer (Some p) st),
       [SelectPlayer playerId; TouchLastSeen playerId nowIso])
  | LookupNone => (setLoadingDone (forgetPlayerId st), [SelectPlayer playerId])
  end.

(** The mount effect of [usePlayer]. An empty stored id is falsy. *)
Definition mountPlayer (db : string -> Lookup) (nowIso : string) (st : AppState)
  : AppState * list PlayerOp :=
  match ap_storage st !! "playerId" with
  | Some id =>
      if String.eqb id "" then (setLoadingDone st, [])
      else loadPlayer db nowIso id st
  | None => (setLoadingDone st, [])
  end.

(** The palette of [createPlayer]. *)
Definition colors : list string :=
  ["#EF4444"; "#3B82F6"; "#10B981"; "#F59E0B"; "#8B5CF6"; "#EC4899"].

(** [colors[Math.floor(r * colors.length)]]; the product is exact here, as
    in [pickType]. *)
Definition pickColor (r : Q) : option string :=
  let i := Qfloor (r * inject_Z (Z.of_nat (length colors))) in
  if i <? 0 then None else nth_error colors (Z.to_nat i).

(** [createPlayer(username)]; [r] is what [Math.random()] returns, [insert]
    answers the insert with the new row or with an error ([None]). The
    boolean tells whether the promise resolves. *)
Definition createPlayer (r : Q) (insert : JsString -> option string -> option Player)
    (username : JsString) (st : AppState) : AppState * list PlayerOp * bool :=
  let avatarColor := pickColor r in
  match insert username avatarColor with
  | None => (st, [InsertPlayer username avatarColor], false)
  | Some data =>
      (storePlayerId (pl_id data) (setPlayer (Some data) st),
       [InsertPlayer username avatarColor], true)
  end.

(** [logout()] *)
Definition logout (st : AppState) : AppState :=
  setPlayer None (forgetPlayerId st).

(** [handleLogout] of [App]. *)
Definition handleLogout (st : AppState) : AppState :=
  let st' := logout st in
  {| ap_player := ap_player st'; ap_loading := ap_loading st';
     ap_currentRoomId := None; ap_storage := ap_storage st' |}.

(** What [App] renders. *)
Inductive Screen :=
| LoadingScreen
| LoginScreen
| GameRoomScreen (roomId : string) (player : Player)
| LobbyScreen (player : Player).

Definition screen (st : AppState) : Screen :=
  if ap_loading st then LoadingScreen
  else
    match ap_player st with
    | None => LoginScreen
    | Some p =>
        match ap_currentRoomId st with
        | Some roomId =>
            if String.eqb roomId "" then LobbyScreen p else GameRoomScreen roomId p
        | None => LobbyScreen p
        end
    end.

(** [Login] submitting into [App]: [handleLogin] is [createPlayer], so the
    promise [handleSubmit] awaits resolves when [createPlayer] does, and the
    application state is the one [createPlayer] leaves. *)
Definition submitLogin (r : Q) (insert : JsString -> option string -> option Player)
    (lg : LoginState) (st : AppState) : AppState * LoginState :=
  let '(lg', calls) :=
    loginSubmit (fun name => snd (createPlayer r insert name st)) lg in
  (fold_left (fun s name => fst (fst (createPlayer r insert name s))) calls st, lg').

(* ===================================================================== *)
(** ** The renderer, participant part *)
(* ===================================================================== *)

(** The profile joined to a participant ([rp.players]), when it has loaded. *)
Record Profile := mkProfile {
  pf_avatar_color : string;
  pf_username : JsString
}.

(** What the renderer draws for a participant: a disc at a position, with
    a white outline for the local one, an initial in it and a name above. *)
Record DrawnPlayer := mkDrawnPlayer {
  dp_x : Z;
  dp_y : Z;
  dp_fill : string;
  dp_outlined : bool;
  dp_initial : JsString;
  dp_name : JsString;
  dp_name_color : string
}.

Section Participants.
Variable toUpperCase : JsString -> JsString.

(** The body of the [roomPlayers.forEach] loop of [renderGame].
    [toUpperCase] is [String.prototype.toUpperCase]. *)
Definition drawPlayer (me : string) (myPos : Position)
    (entry : RoomPlayer * option Profile) : DrawnPlayer :=
  let '(rp, profile) := entry in
  let mine := String.eqb (rp_player_id rp) me in
  {| dp_x := if mine then p_x myPos else rp_position_x rp;
     dp_y := if mine then p_y myPos else rp_position_y rp;
     dp_fill :=
       match profile with
       | Some pf => if String.eqb (pf_avatar_color pf) "" then "#3B82F6"
                    else pf_avatar_color pf
       | None => "#3B82F6"
       end;
     dp_outlined := mine;
     dp_initial :=
       match profile with
       | Some pf =>
           match toUpperCase (firstn 1 (pf_username pf)) with
           | [] => [80%N]
           | u => u
           end
       | None => [80%N]
       end;
     dp_name := match profile with Some pf => pf_username pf | None => [] end;
     dp_name_color := if mine then "#FFFFFF" else "#94A3B8" |}.

Definition renderPlayers (me : string) (myPos : Position)
    (roomPlayers : list (RoomPlayer * option Profile)) : list DrawnPlayer :=
  List.map (drawPlayer me myPos) roomPlayers.
End Participants.

(** Two participants, with their profiles, that differ at most in the
    position and score mirrored for the local participant [me]. *)
Definition sameButOwnMirror (me : string) (a b : RoomPlayer * option Profile) : Prop :=
  snd a = snd b /\ rp_player_id (fst a) = rp_player_id (fst b) /\
  (rp_player_id (fst a) <> me ->
   rp_position_x (fst a) = rp_position_x (fst b) /\
   rp_position_y (fst a) = rp_position_y (fst b)).

(* ===================================================================== *)
(** ** A way to every item *)
(* ===================================================================== *)

(** The multiple of 5 at or just below [x]: the player moves on the
    multiples of 5. *)
Definition latticeBelow (x : Q) : Z := 5 * (Qfloor x / 5).

(** The key to hold to go from coordinate [from] towards [to]. *)
Definition keyTowards (from to : Z) (forth back : string) : gset string :=
  if from <=? to then {[ forth ]} else {[ back ]}.

(** Frames, 100 ms apart from time 1000 on, that take the player from the
    starting position (400, 300) to (px, py): first along x, then along y,
    then one frame with no key held. *)
Definition pathTo (px py : Z) : list Frame :=
  let n1 := Z.to_nat (Z.abs (px - 400) / 5) in
  let n2 := Z.to_nat (Z.abs (py - 300) / 5) in
  holdKeys (keyTowards 400 px "d" "a") 1000 100 n1 ++
  holdKeys (keyTowards 300 py "s" "w") (1000 + 100 * Z.of_nat n1) 100 n2 ++
  [(1000 + 100 * Z.of_nat n1 + 100 * Z.of_nat n2, ∅)].

Definition pathToItem (item : Collectible) : list Frame :=
  pathTo (latticeBelow (c_x item)) (latticeBelow (c_y item)).

(* ===================================================================== *)
(** ** More of the worked session *)
(* ===================================================================== *)

(** Up pressed, a shifted W pressed (ignored), right pressed, up released. *)
Definition sampleKeyEvents : list KeyEvent :=
  [KeyDown "ArrowUp"; KeyDown "W"; KeyDown "d"; KeyUp "ArrowUp"].

(** The frames of [sampleFrames] but the last, and the state they lead to:
    the player is one tick away from the three coins. *)
Definition samplePrefix : list Frame :=
  holdKeys {["s"; "d"]} 1000 20 11 ++ holdKeys {["s"]} 1220 20 5.

Definition sampleBefore : GameState :=
  fst (runFrames samplePrefix (initialState sampleItems)).

(** The first item of the sample field. *)
Definition sampleItem0 : Collectible :=
  Eval vm_compute in
    match sampleItems with
    | c :: _ => c
    | [] => mkCollectible "" 0 0 coin 0 false
    end.

(** The room of the specification's example with a stale mirror of the
    local participant. *)
Definition specRoomStale : list RoomPlayer :=
  [ mkRoomPlayer "rp-1" "alice" 100 100 30 true;
    mkRoomPlayer "rp-2" "me" 400 300 0 true;
    mkRoomPlayer "rp-3" "bob" 200 200 50 true;
    mkRoomPlayer "rp-4" "carol" 300 300 10 true ].

(* ===================================================================== *)
(** ** The closures of the renders *)
(* ===================================================================== *)

(** What the functions defined during one render of [GameCanvas] close
    over: the props of that render and its [myScore]. *)
Record Render := mkRender {
  rd_roomId : string;
  rd_player : Player;
  rd_roomPlayers : list RoomPlayer;
  rd_gameType : string;
  rd_myScore : Z
}.

(** The first render of a session: the props it is given, and
    [useState(0)] for [myScore]. *)
Definition firstRender (roomId : string) (player : Player)
    (roomPlayers : list RoomPlayer) (gameType : string) : Render :=
  {| rd_roomId := roomId; rd_player := player; rd_roomPlayers := roomPlayers;
     rd_gameType := gameType; rd_myScore := 0 |}.

(** The [endGame] one render defines. *)
Definition endGameOf (r : Render) : list RemoteWrite :=
  endGame (rd_roomId r) (rd_player r) (rd_roomPlayers r) (rd_gameType r)
          (rd_myScore r).

(** The call [endGame()] in the interval callback. The effect that sets
    the interval has the dependency list [[]]: it runs after the first
    render only, and the callback it passes to [setInterval] is the one of
    that render. At every firing the callback calls the [endGame] of the
    first render, whatever the render [current] on screen holds then. *)
Definition endGameFromInterval (first current : Render) : list RemoteWrite :=
  endGameOf first.

(** [handleJoinRoom] and [handleLeaveRoom] of [App]. *)
Definition handleJoinRoom (roomId : string) (st : AppState) : AppState :=
  {| ap_player := ap_player st; ap_loading := ap_loading st;
     ap_currentRoomId := Some roomId; ap_storage := ap_storage st |}.

Definition handleLeaveRoom (st : AppState) : AppState :=
  {| ap_player := ap_player st; ap_loading := ap_loading st;
     ap_currentRoomId := None; ap_storage := ap_storage st |}.

(** The first render of the canvas in the room [App] shows: [App] hands its
    [player] to [GameRoom], which hands it on to [GameCanvas]. [roomPlayers]
    and [gameType] are those [GameRoom] holds when the game starts. *)
Definition canvasFirstRender (st : AppState) (roomPlayers : list RoomPlayer)
    (gameType : string) : option Render :=
  match screen st with
  | GameRoomScreen roomId p => Some (firstRender roomId p roomPlayers gameType)
  | _ => None
  end.

(** The statistics a list of writes leaves in the [players] row of [id],
    from the statistics [row] it held before: the last update wins. *)
Fixpoint storedStats (id : string) (row : Z * Z * Z) (writes : list RemoteWrite)
  : Z * Z * Z :=
  match writes with
  | [] => row
  | UpdatePlayerStats id' total games wins :: rest =>
      storedStats id (if String.eqb id' id then (total, games, wins) else row) rest
  | _ :: rest => storedStats id row rest
  end.

(* ===================================================================== *)
(** ** The tick with a queued updater *)
(* ===================================================================== *)

(** [checkCollisions(x, y)] when an update of the component is pending at
    the call of [setCollectibles]. React then puts the updater in the queue
    of the state cell and runs it during the next render: the items in
    range get their flag then, but the assignments to [newScore] and
    [scoreChanged] in the updater come after the test that follows the
    call, which reads the two variables as they were initialised. *)
Definition checkCollisionsQueued (score0 : Z) (x y : Z) (st : GameState)
  : GameState * list Event :=
  let scoreChanged := false in
  let newScore := score0 in
  let items := fst (collectMap x y (collectibles st) (score0, false)) in
  let st1 := setCollectibles items st in
  if scoreChanged && negb (newScore =? score0)
  then (setMyScore newScore st1, [ScoreUpdate newScore])
  else (st1, []).

(** [updateGame()] with the queue of React. [pending] tells whether an
    update of the component is pending when the tick starts, as the
    [setCollectibles(items)] of the mount effect is for the first tick; a
    call of [setMyPosition] in the tick leaves one pending as well. With no
    update pending React runs the updater at the call, as [checkCollisions]
    has it. *)
Definition updateGameScheduled (pending : bool) (now : Z) (keys : gset string)
    (st : GameState) : GameState * list Event :=
  if gated now st then (st, [])
  else
    let '(newX, newY) := candidate keys (myPosition st) in
    let newX := Z.max 20 (Z.min 780 newX) in
    let newY := Z.max 20 (Z.min 580 newY) in
    let moved :=
      negb (newX =? p_x (myPosition st)) || negb (newY =? p_y (myPosition st)) in
    let '(st1, ev1) :=
      if moved
      then
        let st' := setMyPosition {| p_x := newX; p_y := newY |} st in
        if now - lastUpdateTime st >? 50
        then (setLastUpdateTime now st', [PositionUpdate newX newY])
        else (st', [])
      else (st, []) in
    let '(st2, ev2) :=
      if pending || moved
      then checkCollisionsQueued (myScore st) newX newY st1
      else checkCollisions (myScore st) newX newY st1 in
    (st2, ev1 ++ ev2).

(** The frames of a session in order, each tick run once the updates of
    the one before are rendered; [pending] is for the first of them. *)
Fixpoint runFramesScheduled (pending : bool) (frames : list Frame) (st : GameState)
  : GameState * list (Z * Event) :=
  match frames with
  | [] => (st, [])
  | (now, keys) :: rest =>
      let '(st1, ev) := updateGameScheduled pending now keys st in
      let '(st2, log) := runFramesScheduled false rest st1 in
      (st2, List.map (fun e => (now, e)) ev ++ log)
  end.

(* ===================================================================== *)
(** ** Margins for binary64 *)
(* ===================================================================== *)

(** The source multiplies a draw by the length of the table in binary64: for
    a draw less than 2^-53 below a multiple of 1/6 the product can round up
    to the next whole number, and the next entry of the table is read. What
    is stated about the draw that gives an entry stays [drawMargin], 2^-50,
    away from these boundaries. *)
Definition drawMargin : Q := 1 # 1125899906842624.

(** The square of the distance between (x, y) and an item. *)
Definition distanceSquared (x y : Z) (item : Collectible) : Q :=
  let dx := (c_x item - inject_Z x)%Q in
  let dy := (c_y item - inject_Z y)%Q in
  (dx * dx + dy * dy)%Q.

(** The source takes the distance in binary64, rounding at every step; what
    is stated about the range of 35 stays 1/1000 away from it, on either
    side: these are the squares of 34.999 and of 35.001. *)
Definition insideRange : Q := (34999 # 1000) * (34999 # 1000).

Definition outsideRange : Q := (35001 # 1000) * (35001 # 1000).

(* ===================================================================== *)
(** ** Sessions that end *)
(* ===================================================================== *)

(** The room as the first render of the canvas has it: nobody has scored. *)
Definition roomAtStart : list RoomPlayer :=
  [ mkRoomPlayer "rp-1" "alice" 100 100 0 true;
    mkRoomPlayer "rp-2" "me" 400 300 0 true ].

(** The same room when the countdown ends: the other participant has 10,
    the mirror of the local participant 20. *)
Definition roomAtEnd : list RoomPlayer :=
  [ mkRoomPlayer "rp-1" "alice" 120 340 10 true;
    mkRoomPlayer "rp-2" "me" 455 385 20 true ].

(** The render on screen when the countdown ends, with the local score 20. *)
Definition renderAtEnd : Render :=
  {| rd_roomId := "room-1"; rd_player := samplePlayer;
     rd_roomPlayers := roomAtEnd; rd_gameType := "collector"; rd_myScore := 20 |}.

(** Two more rooms as the first render has them: the local participant
    first in the list, and second. *)
Definition roomLocalFirst : list RoomPlayer :=
  [ mkRoomPlayer "rp-5" "me" 400 300 0 true;
    mkRoomPlayer "rp-6" "bob" 200 200 0 true ].

Definition roomLocalSecond : list RoomPlayer :=
  [ mkRoomPlayer "rp-7" "carol" 300 300 0 true;
    mkRoomPlayer "rp-8" "me" 400 300 0 true ].

(** The application with [samplePlayer] loaded, in the lobby. *)
Definition sampleApp : AppState :=
  {| ap_player := Some samplePlayer; ap_loading := false;
     ap_currentRoomId := None; ap_storage := {[ "playerId" := "me" ]} |}.

(* ===================================================================== *)
(** ** Properties of the countdown *)
(* ===================================================================== *)

Lemma runTimer_add (a b : nat) (t : Z) :
  runTimer (a + b) t =
  let '(t1, c1) := runTimer a t in
  let '(t2, c2) := runTimer b t1 in
  (t2, (c1 + c2)%nat).
Proof.
  revert t. induction a as [|a IH]; intros t; simpl.
  - destruct (runTimer b t); reflexivity.
  - destruct (timerTick t) as [t' fired]. rewrite IH.
    destruct (runTimer a t') as [t1 c1].
    destruct (runTimer b t1) as [t2 c2].
    destruct fired; reflexivity.
Qed.

(** Once at zero the countdown holds there, and every further firing calls
    [endGame] again. *)
Lemma runTimer_at_zero (n : nat) : runTimer n 0 = (0, n).
Proof.
  induction n as [|n IH]; simpl; [reflexivity|].
  rewrite IH. reflexivity.
Qed.

(** The countdown is never negative. *)
Lemma runTimer_nonneg (n : nat) (t : Z) : 0 <= t -> 0 <= fst (runTimer n t).
Proof.
  revert t. induction n as [|n IH]; intros t Ht; simpl; [exact Ht|].
  unfold timerTick. destruct (Z.leb_spec t 1).
  - specialize (IH 0 ltac:(lia)). destruct (runTimer n 0). exact IH.
  - specialize (IH (t - 1) ltac:(lia)). destruct (runTimer n (t - 1)). exact IH.
Qed.

(** C1, evaluated on the code. A session starts its countdown at 60. The
    61st firing of the interval makes the second call of [endGame]: after
    the 60 firings that bring the countdown to zero, each of [n] further
    firings calls [endGame] once more, [60 + n] firings make [1 + n] calls. *)
Theorem endGame_called_on_every_firing_at_zero :
  runTimer 61 (gameTime (initialState [])) = (0, 2%nat) /\
  forall n, runTimer (60 + n) (gameTime (initialState [])) = (0, S n).
Proof.
  split; [reflexivity|]. intros n.
  rewrite runTimer_add.
  change (runTimer 60 (gameTime (initialState []))) with (0, 1%nat).
  cbv beta iota. rewrite runTimer_at_zero. reflexivity.
Qed.

(* ===================================================================== *)
(** ** Properties of the collectible field *)
(* ===================================================================== *)

Lemma Qfloor_six (n : Z) (d : positive) :
  Qfloor ((n # d) * inject_Z 6) = (n * 6) / Z.pos d.
Proof.
  unfold Qfloor, Qmult, inject_Z. simpl Qnum. simpl Qden.
  rewrite Pos.mul_1_r. reflexivity.
Qed.

(** Which numbers of the unit interval give which kind. *)
Lemma pickType_intervals (r : Q) :
  (0 <= r)%Q -> (r < 1)%Q ->
  (pickType r = Some coin <-> (r < 1 # 2)%Q) /\
  (pickType r = Some gem <-> ((1 # 2) <= r)%Q /\ (r < 5 # 6)%Q) /\
  (pickType r = Some star <-> ((5 # 6) <= r)%Q).
Proof.
  destruct r as [n d]. unfold Qle, Qlt. simpl Qnum. simpl Qden.
  intros H0 H1.
  unfold pickType. change (Z.of_nat (length types)) with 6.
  rewrite Qfloor_six.
  assert (Hd : 0 < Z.pos d) by lia.
  pose proof (Z.div_mod (n * 6) (Z.pos d) ltac:(lia)) as Hdm.
  pose proof (Z.mod_pos_bound (n * 6) (Z.pos d) Hd) as Hmb.
  set (i := (n * 6) / Z.pos d) in *.
  set (m := (n * 6) mod Z.pos d) in *.
  assert (Hi : 0 <= i < 6) by nia.
  destruct (Z.ltb_spec i 0); [lia|].
  assert (Hcases : i = 0 \/ i = 1 \/ i = 2 \/ i = 3 \/ i = 4 \/ i = 5) by lia.
  destruct Hcases as [E|[E|[E|[E|[E|E]]]]]; rewrite E in *; simpl;
    (repeat split; intros; try discriminate; try reflexivity; try nia).
Qed.

Lemma pickType_total (r : Q) :
  (0 <= r)%Q -> (r < 1)%Q -> exists t, pickType r = Some t.
Proof.
  intros H0 H1. destruct (pickType_intervals r H0 H1) as (Hc & Hg & Hs).
  destruct (Qlt_le_dec r (1 # 2)) as [L|L].
  - exists coin. apply Hc, L.
  - destruct (Qlt_le_dec r (5 # 6)) as [L'|L'].
    + exists gem. apply Hg. split; assumption.
    + exists star. apply Hs, L'.
Qed.

(** The kind a draw gives, with [drawMargin] left below the boundaries. *)
Lemma pickType_guarded (r : Q) (t : CollectibleType) :
  (0 <= r)%Q -> (r < 1)%Q -> pickType r = Some t ->
  ((r < (1 # 2) - drawMargin)%Q -> t = coin) /\
  (((1 # 2) <= r)%Q -> (r < (5 # 6) - drawMargin)%Q -> t = gem) /\
  (((5 # 6) <= r)%Q -> t = star) /\
  (t = coin -> (r < 1 # 2)%Q) /\
  (t = gem -> ((1 # 2) - drawMargin < r)%Q /\ (r < 5 # 6)%Q) /\
  (t = star -> ((5 # 6) - drawMargin < r)%Q).
Proof.
  intros H0 H1 Ht.
  destruct (pickType_intervals r H0 H1) as (Hc & Hg & Hs).
  assert (Kc : t = coin -> (r < 1 # 2)%Q) by (intros ->; apply Hc, Ht).
  assert (Kg : t = gem -> ((1 # 2) <= r)%Q /\ (r < 5 # 6)%Q) by (intros ->; apply Hg, Ht).
  assert (Ks : t = star -> ((5 # 6) <= r)%Q) by (intros ->; apply Hs, Ht).
  assert (Lc : (r < 1 # 2)%Q -> t = coin)
    by (intros L; apply Hc in L; congruence).
  assert (Lg : ((1 # 2) <= r)%Q -> (r < 5 # 6)%Q -> t = gem)
    by (intros L L'; assert (G : pickType r = Some gem) by (apply Hg; split; assumption);
        congruence).
  assert (Ls : ((5 # 6) <= r)%Q -> t = star)
    by (intros L; apply Hs in L; congruence).
  clear Hc Hg Hs Ht.
  destruct r as [n d]. unfold drawMargin, Qle, Qlt, Qminus, Qplus, Qopp in *.
  simpl Qnum in *. simpl Qden in *.
  split; [intros L; apply Lc; lia|].
  split; [intros L L'; apply Lg; lia|].
  split; [exact Ls|].
  split; [exact Kc|].
  split; [intros E; destruct (Kg E); split; lia|].
  intros E. specialize (Ks E). lia.
Qed.

Section Field.
Variables (clock : nat -> Z) (rnd : nat -> Q).
Hypothesis rnd_unit : forall k, (0 <= rnd k)%Q /\ (rnd k < 1)%Q.

Lemma makeCollectible_total (i : nat) :
  exists item, makeCollectible clock rnd i = Some item /\
    c_collected item = false /\
    pickType (rnd (3 * i)%nat) = Some (c_type item) /\
    c_value item = values (c_type item).
Proof.
  unfold makeCollectible.
  destruct (rnd_unit (3 * i)%nat) as [H0 H1].
  destruct (pickType_total _ H0 H1) as [t Ht]. rewrite Ht.
  eexists. split; [reflexivity|]. simpl. auto.
Qed.

Lemma pushCollectibles_total (n from : nat) :
  exists items, pushCollectibles clock rnd from n = Some items /\
    length items = n /\
    forall i item, nth_error items i = Some item ->
      c_collected item = false /\
      pickType (rnd (3 * (from + i))%nat) = Some (c_type item) /\
      c_value item = values (c_type item).
Proof.
  revert from. induction n as [|n IH]; intros from; simpl.
  - exists []. repeat split; auto; destruct i; discriminate.
  - destruct (makeCollectible_total from) as (item0 & E0 & Hc & Hp & Hv).
    destruct (IH (S from)) as (items & E & Hlen & Hall).
    rewrite E0, E. exists (item0 :: items).
    split; [reflexivity|]. split; [simpl; congruence|].
    intros [|i] item Hn; simpl in Hn.
    + injection Hn as <-. rewrite Nat.add_0_r. auto.
    + replace (from + S i)%nat with (S from + i)%nat by lia.
      apply Hall, Hn.
Qed.
End Field.

(** C4 as the claim states it fails: in the pool the coin is not three times
    as likely as the gem (three of the six indices against two). *)
Lemma coin_not_thrice_as_likely_as_gem :
  ~ (weight coin = 3 * weight gem /\ weight coin = 3 * weight star)%nat.
Proof. vm_compute. intros [H _]. discriminate H. Qed.

(** C4, amended. Whatever [Date.now()] and [Math.random()] return (the
    latter in the unit interval), the field has exactly 20 items; item [i]
    starts uncollected and has a kind of the pool, picked by its own draw
    [rnd (3 * i)] alone, and the value of that kind. The pool gives the coin
    three of its six entries, the gem two and the star one: the coin is
    three times as likely as the star and one and a half times as likely as
    the gem. Of the draws, those below 1/2 give the coin, those from 1/2 to
    5/6 the gem and those from 5/6 the star; a draw within [drawMargin]
    below 1/2 or 5/6 gives one of the two kinds that meet there. *)
Theorem initializeCollectibles_field (clock : nat -> Z) (rnd : nat -> Q) :
  (forall k, (0 <= rnd k)%Q /\ (rnd k < 1)%Q) ->
  (exists items, initializeCollectibles clock rnd = Some items /\
     length items = 20%nat /\
     forall i item, nth_error items i = Some item ->
       let r := rnd (3 * i)%nat in
       c_collected item = false /\
       In (c_type item) types /\
       c_value item = values (c_type item) /\
       ((r < (1 # 2) - drawMargin)%Q -> c_type item = coin) /\
       (((1 # 2) <= r)%Q -> (r < (5 # 6) - drawMargin)%Q -> c_type item = gem) /\
       (((5 # 6) <= r)%Q -> c_type item = star) /\
       (c_type item = coin -> (r < 1 # 2)%Q) /\
       (c_type item = gem -> ((1 # 2) - drawMargin < r)%Q /\ (r < 5 # 6)%Q) /\
       (c_type item = star -> ((5 # 6) - drawMargin < r)%Q)) /\
  (weight coin = 3 /\ weight gem = 2 /\ weight star = 1)%nat /\
  (weight coin = 3 * weight star /\ 2 * weight coin = 3 * weight gem)%nat.
Proof.
  intros Hrnd. split; [|split].
  - destruct (pushCollectibles_total clock rnd Hrnd 20 0) as (items & E & L & H).
    exists items. split; [exact E|]. split; [exact L|].
    intros i item Hn. cbv zeta. destruct (H i item Hn) as (Hc & Hp & Hv).
    destruct (Hrnd (3 * i)%nat) as [H0 H1].
    split; [exact Hc|]. split; [|split; [exact Hv|]].
    + destruct (c_type item); simpl; tauto.
    + exact (pickType_guarded _ _ H0 H1 Hp).
  - vm_compute. auto.
  - vm_compute. auto.
Qed.

(* ===================================================================== *)
(** ** Properties of the simulation tick: position and pushes *)
(* ===================================================================== *)

Lemma checkCollisions_frame (score0 x y : Z) (st : GameState) :
  myPosition (fst (checkCollisions score0 x y st)) = myPosition st /\
  lastUpdateTime (fst (checkCollisions score0 x y st)) = lastUpdateTime st /\
  gameTime (fst (checkCollisions score0 x y st)) = gameTime st.
Proof.
  unfold checkCollisions.
  destruct (collectMap x y (collectibles st) (score0, false)) as [items [ns sc]].
  destruct (sc && negb (ns =? score0)); simpl; auto.
Qed.

Lemma checkCollisions_events (score0 x y : Z) (st : GameState) (now : Z) :
  pushTimes (List.map (fun e => (now, e)) (snd (checkCollisions score0 x y st))) = [].
Proof.
  unfold checkCollisions.
  destruct (collectMap x y (collectibles st) (score0, false)) as [items [ns sc]].
  destruct (sc && negb (ns =? score0)); reflexivity.
Qed.

(** Case analysis on the call of [checkCollisions] in the goal, after
    [tac] has recorded what is known about it. *)
Ltac on_checkCollisions tac :=
  match goal with
  | |- context [checkCollisions ?s ?a ?b ?t] =>
      tac s a b t; destruct (checkCollisions s a b t) as [? ?]
  end.

Lemma updateGame_gated (now : Z) (keys : gset string) (st : GameState) :
  gated now st = true -> updateGame now keys st = (st, []).
Proof. intros G. unfold updateGame. rewrite G. reflexivity. Qed.

(** A tick that passes the gate leaves the clamped candidate as position. *)
Lemma updateGame_position (now : Z) (keys : gset string) (st : GameState) :
  gated now st = false ->
  myPosition (fst (updateGame now keys st)) =
  {| p_x := Z.max 20 (Z.min 780 (fst (candidate keys (myPosition st))));
     p_y := Z.max 20 (Z.min 580 (snd (candidate keys (myPosition st)))) |}.
Proof.
  intros G. unfold updateGame. rewrite G.
  destruct (candidate keys (myPosition st)) as [cx cy]. simpl fst. simpl snd.
  set (nx := Z.max 20 (Z.min 780 cx)). set (ny := Z.max 20 (Z.min 580 cy)).
  destruct (negb (nx =? p_x (myPosition st)) || negb (ny =? p_y (myPosition st))) eqn:M.
  - destruct (now - lastUpdateTime st >? 50);
      on_checkCollisions
        ltac:(fun s a b t => pose proof (checkCollisions_frame s a b t) as (Hp & _ & _));
      simpl in *; rewrite Hp; reflexivity.
  - apply orb_false_elim in M as [M1 M2].
    apply negb_false_iff, Z.eqb_eq in M1, M2.
    on_checkCollisions
      ltac:(fun s a b t => pose proof (checkCollisions_frame s a b t) as (Hp & _ & _)).
    simpl in *. rewrite Hp, M1, M2. destruct (myPosition st); reflexivity.
Qed.

Lemma updateGame_inArena (now : Z) (keys : gset string) (st : GameState) :
  inArena (myPosition st) -> inArena (myPosition (fst (updateGame now keys st))).
Proof.
  intros H. destruct (gated now st) eqn:G.
  - rewrite updateGame_gated by exact G. exact H.
  - rewrite updateGame_position by exact G. unfold inArena. simpl. lia.
Qed.

Lemma runFrames_inArena (frames : list Frame) (st : GameState) :
  inArena (myPosition st) -> inArena (myPosition (fst (runFrames frames st))).
Proof.
  revert st. induction frames as [|[now keys] rest IH]; intros st H; simpl.
  - exact H.
  - pose proof (updateGame_inArena now keys st H) as H1.
    destruct (updateGame now keys st) as [st1 ev]. simpl in H1.
    specialize (IH st1 H1). destruct (runFrames rest st1) as [st2 log].
    exact IH.
Qed.

(** C2. From the start of a session, after any sequence of frames with any
    keys held in each, the local position lies in [20, 780] x [20, 580]. *)
Theorem position_stays_in_arena (items : list Collectible) (frames : list Frame) :
  inArena (myPosition (fst (runFrames frames (initialState items)))).
Proof.
  apply runFrames_inArena. unfold inArena. simpl. lia.
Qed.

Lemma movement_step (now : Z) (keys : gset string) (st : GameState) :
  gated now st = false ->
  20 <= fst (candidate keys (myPosition st)) <= 780 ->
  20 <= snd (candidate keys (myPosition st)) <= 580 ->
  let dx := p_x (myPosition (fst (updateGame now keys st))) - p_x (myPosition st) in
  let dy := p_y (myPosition (fst (updateGame now keys st))) - p_y (myPosition st) in
  (diagonal keys = true ->
     Z.abs dx = 5 /\ Z.abs dy = 5 /\ dx * dx + dy * dy = 50) /\
  (singleDirection keys = true ->
     Z.abs dx + Z.abs dy = 5 /\ dx * dx + dy * dy = 25).
Proof.
  intros G Hx Hy dx dy.
  assert (E : myPosition (fst (updateGame now keys st)) =
              {| p_x := fst (candidate keys (myPosition st));
                 p_y := snd (candidate keys (myPosition st)) |}).
  { rewrite updateGame_position by exact G.
    f_equal; rewrite Z.max_r, Z.min_r by lia; reflexivity. }
  subst dx dy. rewrite E. simpl. clear E Hx Hy G.
  unfold diagonal, singleDirection, candidate.
  destruct (heldUp keys), (heldDown keys), (heldLeft keys), (heldRight keys);
    simpl; split; intros H; try discriminate H; lia.
Qed.

Lemma sqrt_50 : sqrt (IZR 50) = (5 * sqrt 2)%R.
Proof.
  replace (IZR 50) with ((5 * 5) * 2)%R by lra.
  rewrite sqrt_mult by lra. rewrite sqrt_square by lra. reflexivity.
Qed.

Lemma sqrt_25 : sqrt (IZR 25) = 5%R.
Proof.
  replace (IZR 25) with (5 * 5)%R by lra. apply sqrt_square. lra.
Qed.

(** C6. In a tick that passes the time gate and whose candidate position is
    inside the arena bounds on both axes: with one vertical and one
    horizontal direction in effect the position moves by exactly 5 on each
    axis, a displacement of 5 * sqrt 2 (no normalization); with a single
    direction held it moves by exactly 5 on one axis and 0 on the other, a
    displacement of 5. *)
Theorem movement_is_not_normalized (now : Z) (keys : gset string) (st : GameState) :
  gated now st = false ->
  20 <= fst (candidate keys (myPosition st)) <= 780 ->
  20 <= snd (candidate keys (myPosition st)) <= 580 ->
  let st' := fst (updateGame now keys st) in
  let dx := p_x (myPosition st') - p_x (myPosition st) in
  let dy := p_y (myPosition st') - p_y (myPosition st) in
  (diagonal keys = true ->
     Z.abs dx = 5 /\ Z.abs dy = 5 /\
     displacement (myPosition st) (myPosition st') = (5 * sqrt 2)%R) /\
  (singleDirection keys = true ->
     Z.abs dx + Z.abs dy = 5 /\
     displacement (myPosition st) (myPosition st') = 5%R).
Proof.
  intros G Hx Hy st' dx dy.
  destruct (movement_step now keys st G Hx Hy) as [Diag Single].
  fold st' in Diag, Single. fold dx dy in Diag, Single.
  split; intros H.
  - destruct (Diag H) as (Ax & Ay & Sq). repeat split; auto.
    unfold displacement. fold dx dy. rewrite Sq. apply sqrt_50.
  - destruct (Single H) as (Ax & Sq). split; auto.
    unfold displacement. fold dx dy. rewrite Sq. apply sqrt_25.
Qed.

Lemma pushTimes_app (l1 l2 : list (Z * Event)) :
  pushTimes (l1 ++ l2) = pushTimes l1 ++ pushTimes l2.
Proof.
  induction l1 as [|[t [x y|s]] l1 IH]; simpl; [reflexivity| |]; rewrite IH; reflexivity.
Qed.

(** A tick pushes the position at most once, only when more than 50 ms have
    passed since the time it stored at the previous push, and stores the
    time only when it pushes. *)
Lemma updateGame_push (now : Z) (keys : gset string) (st : GameState) :
  (pushTimes (List.map (fun e => (now, e)) (snd (updateGame now keys st))) = [] /\
   lastUpdateTime (fst (updateGame now keys st)) = lastUpdateTime st) \/
  (pushTimes (List.map (fun e => (now, e)) (snd (updateGame now keys st))) = [now] /\
   lastUpdateTime (fst (updateGame now keys st)) = now /\
   50 < now - lastUpdateTime st /\ gated now st = false).
Proof.
  unfold updateGame. destruct (gated now st) eqn:G; [left; split; reflexivity|].
  destruct (candidate keys (myPosition st)) as [cx cy].
  set (nx := Z.max 20 (Z.min 780 cx)). set (ny := Z.max 20 (Z.min 580 cy)).
  destruct (negb (nx =? p_x (myPosition st)) || negb (ny =? p_y (myPosition st))).
  - destruct (Z.gtb_spec (now - lastUpdateTime st) 50) as [L|L];
      on_checkCollisions
        ltac:(fun s a b t =>
                pose proof (checkCollisions_frame s a b t) as (_ & Hl & _);
                pose proof (checkCollisions_events s a b t now) as He);
      simpl in *.
    + right. rewrite He, Hl. repeat split; auto.
    + left. rewrite He, Hl. split; reflexivity.
  - on_checkCollisions
      ltac:(fun s a b t =>
              pose proof (checkCollisions_frame s a b t) as (_ & Hl & _);
              pose proof (checkCollisions_events s a b t now) as He).
    simpl in *. left. rewrite He, Hl. split; reflexivity.
Qed.

Lemma runFrames_spaced (frames : list Frame) (st : GameState) :
  spacedFrom (lastUpdateTime st) (pushTimes (snd (runFrames frames st))).
Proof.
  revert st. induction frames as [|[now keys] rest IH]; intros st; simpl.
  - exact I.
  - pose proof (updateGame_push now keys st) as P.
    destruct (updateGame now keys st) as [st1 ev]. simpl in P.
    specialize (IH st1). destruct (runFrames rest st1) as [st2 log].
    simpl in *. rewrite pushTimes_app.
    destruct P as [[E L]|(E & L & D & _)]; rewrite E; simpl.
    + rewrite <- L. exact IH.
    + split; [exact D|]. rewrite <- L. exact IH.
Qed.

Lemma spacedFrom_consecutive (times : list Z) (last : Z) (i : nat) (t1 t2 : Z) :
  spacedFrom last times ->
  nth_error times i = Some t1 -> nth_error times (S i) = Some t2 ->
  50 < t2 - t1.
Proof.
  revert last i. induction times as [|t rest IH]; intros last i S H1 H2.
  - destruct i; discriminate.
  - destruct S as [_ S]. destruct i as [|i]; simpl in H1, H2.
    + injection H1 as ->. destruct rest as [|t' rest']; [discriminate|].
      simpl in H2. injection H2 as ->. destruct S as [D _]. exact D.
    + eapply IH; eauto.
Qed.

(** C5. In any sequence of frames, whatever keys are held in each, two
    consecutive calls of [onPositionUpdate] are more than 50 ms apart. *)
Theorem position_pushes_are_throttled
    (items : list Collectible) (frames : list Frame) (i : nat) (t1 t2 : Z) :
  let times := pushTimes (snd (runFrames frames (initialState items))) in
  nth_error times i = Some t1 ->
  nth_error times (S i) = Some t2 ->
  50 < t2 - t1.
Proof.
  intros times H1 H2.
  eapply spacedFrom_consecutive; eauto.
  apply (runFrames_spaced frames (initialState items)).
Qed.

(** C9, evaluated on the code. With "d" held, frames at 1000, 1016 and
    1017 ms all pass the time gate and all move the player: the frame at
    1017 ms advances the state 1 ms after the frame at 1016 ms did. The time
    the gate compares with is stored only when the position is pushed. *)
Theorem tick_runs_within_16ms_of_previous_tick :
  let keys : gset string := {["d"]} in
  let st0 := initialState [] in
  let st1 := fst (updateGame 1000 keys st0) in
  let st2 := fst (updateGame 1016 keys st1) in
  let st3 := fst (updateGame 1017 keys st2) in
  gated 1000 st0 = false /\ gated 1016 st1 = false /\ gated 1017 st2 = false /\
  myPosition st1 = {| p_x := 405; p_y := 300 |} /\
  myPosition st2 = {| p_x := 410; p_y := 300 |} /\
  myPosition st3 = {| p_x := 415; p_y := 300 |} /\
  lastUpdateTime st2 = 1000 /\
  1017 - 1016 < 16.
Proof. vm_compute. repeat split; reflexivity. Qed.

(* ===================================================================== *)
(** ** Properties of the collision check *)
(* ===================================================================== *)

Lemma collectMap_app (x y : Z) (l1 l2 : list Collectible) (acc : Z * bool) :
  collectMap x y (l1 ++ l2) acc =
  let '(l1', acc1) := collectMap x y l1 acc in
  let '(l2', acc2) := collectMap x y l2 acc1 in
  (l1' ++ l2', acc2).
Proof.
  revert acc. induction l1 as [|item l1 IH]; intros acc; simpl.
  - destruct (collectMap x y l2 acc) as [l2' acc2]. reflexivity.
  - destruct (collectItem x y item acc) as [item' acc']. rewrite IH.
    destruct (collectMap x y l1 acc') as [l1' acc1].
    destruct (collectMap x y l2 acc1) as [l2' acc2]. reflexivity.
Qed.

Lemma collectMap_length (x y : Z) (l : list Collectible) (acc : Z * bool) :
  length (fst (collectMap x y l acc)) = length l.
Proof.
  revert acc. induction l as [|item l IH]; intros acc; simpl; [reflexivity|].
  destruct (collectItem x y item acc) as [item' acc'].
  specialize (IH acc'). destruct (collectMap x y l acc') as [l' acc''].
  simpl in *. congruence.
Qed.

(** The callback returns a collected item as it is and leaves the score
    variables alone. *)
Lemma collectItem_collected (x y : Z) (c : Collectible) (acc : Z * bool) :
  c_collected c = true -> collectItem x y c acc = (c, acc).
Proof.
  intros H. unfold collectItem. destruct acc as [s b]. rewrite H. reflexivity.
Qed.

Lemma collectMap_skip (x y : Z) (l1 l2 : list Collectible) (c : Collectible)
    (acc : Z * bool) :
  c_collected c = true ->
  collectMap x y (l1 ++ c :: l2) acc =
  let '(l1', acc1) := collectMap x y l1 acc in
  let '(l2', acc2) := collectMap x y l2 acc1 in
  (l1' ++ c :: l2', acc2).
Proof.
  intros H. rewrite collectMap_app.
  destruct (collectMap x y l1 acc) as [l1' acc1]. simpl.
  rewrite collectItem_collected by exact H.
  destruct (collectMap x y l2 acc1) as [l2' acc2]. reflexivity.
Qed.

(** What the map returns: the score variable grows by the gain, the flag
    is raised when an item is hit, and the collected value of the list
    grows by the same gain. *)
Lemma collectMap_spec (x y : Z) (l : list Collectible) (s : Z) (b : bool) :
  snd (collectMap x y l (s, b)) = (s + gain x y l, b || hits x y l) /\
  collectedValue (fst (collectMap x y l (s, b))) = collectedValue l + gain x y l.
Proof.
  revert s b. induction l as [|item l IH]; intros s b; simpl.
  - rewrite orb_false_r, Z.add_0_r. split; reflexivity.
  - unfold collectItem.
    destruct (c_collected item) eqn:C; simpl.
    + specialize (IH s b). destruct (collectMap x y l (s, b)) as [l' acc'].
      simpl in *. destruct IH as [-> ->]. rewrite C. split; [reflexivity|lia].
    + destruct (collides 20 x y item) eqn:K; simpl.
      * specialize (IH (s + c_value item) true).
        destruct (collectMap x y l (s + c_value item, true)) as [l' acc'].
        simpl in *. destruct IH as [-> ->]. rewrite orb_true_r.
        split; [f_equal; lia|lia].
      * specialize (IH s b). destruct (collectMap x y l (s, b)) as [l' acc'].
        simpl in *. destruct IH as [-> ->]. rewrite C. split; [reflexivity|lia].
Qed.

Lemma gain_no_hits (x y : Z) (l : list Collectible) :
  hits x y l = false -> gain x y l = 0.
Proof.
  induction l as [|item l IH]; simpl; [reflexivity|].
  intros H. apply orb_false_elim in H as [H1 H2]. rewrite H1, IH by exact H2.
  reflexivity.
Qed.

(** [checkCollisions] run on a state whose score is the one its closure
    holds: the score grows by the gain. *)
Lemma checkCollisions_spec (x y : Z) (st : GameState) :
  let st' := fst (checkCollisions (myScore st) x y st) in
  myScore st' = myScore st + gain x y (collectibles st) /\
  collectibles st' = fst (collectMap x y (collectibles st) (myScore st, false)) /\
  collectedValue (collectibles st') =
    collectedValue (collectibles st) + gain x y (collectibles st).
Proof.
  unfold checkCollisions.
  pose proof (collectMap_spec x y (collectibles st) (myScore st) false) as [Hs Hv].
  destruct (collectMap x y (collectibles st) (myScore st, false)) as [items [ns sc]].
  simpl in Hs, Hv. injection Hs as -> ->.
  destruct (hits x y (collectibles st)) eqn:Hh; simpl.
  - destruct (Z.eqb_spec (myScore st + gain x y (collectibles st)) (myScore st));
      simpl; repeat split; auto; lia.
  - pose proof (gain_no_hits x y _ Hh) as G0. repeat split; auto; lia.
Qed.

Lemma updateGame_unfold (now : Z) (keys : gset string) (st : GameState) :
  gated now st = false ->
  updateGame now keys st =
  let newX := Z.max 20 (Z.min 780 (fst (candidate keys (myPosition st)))) in
  let newY := Z.max 20 (Z.min 580 (snd (candidate keys (myPosition st)))) in
  let st1 := fst (movePlayer now keys st) in
  (fst (checkCollisions (myScore st) newX newY st1),
   snd (movePlayer now keys st) ++ snd (checkCollisions (myScore st) newX newY st1)).
Proof.
  intros G. unfold updateGame, movePlayer. rewrite G.
  destruct (candidate keys (myPosition st)) as [cx cy]. simpl fst. simpl snd.
  cbv zeta.
  destruct (negb (Z.max 20 (Z.min 780 cx) =? p_x (myPosition st)) ||
            negb (Z.max 20 (Z.min 580 cy) =? p_y (myPosition st)));
    [destruct (now - lastUpdateTime st >? 50)|]; simpl fst; simpl snd;
    on_checkCollisions ltac:(fun s a b t => idtac); reflexivity.
Qed.

Lemma movePlayer_frame (now : Z) (keys : gset string) (st : GameState) :
  collectibles (fst (movePlayer now keys st)) = collectibles st /\
  myScore (fst (movePlayer now keys st)) = myScore st.
Proof.
  unfold movePlayer.
  destruct (negb _ || negb _); [destruct (now - lastUpdateTime st >? 50)|];
    simpl; auto.
Qed.

(** What a tick that passes the gate does to score and collectibles. *)
Lemma updateGame_score (now : Z) (keys : gset string) (st : GameState) :
  gated now st = false ->
  let st' := fst (updateGame now keys st) in
  let x := p_x (myPosition st') in
  let y := p_y (myPosition st') in
  myScore st' = myScore st + gain x y (collectibles st) /\
  collectibles st' = fst (collectMap x y (collectibles st) (myScore st, false)) /\
  collectedValue (collectibles st') =
    collectedValue (collectibles st) + gain x y (collectibles st).
Proof.
  intros G. cbv zeta. rewrite (updateGame_position now keys st G). simpl p_x. simpl p_y.
  rewrite (updateGame_unfold now keys st G). cbv zeta. simpl fst.
  destruct (movePlayer_frame now keys st) as [Hc Hs].
  set (st1 := fst (movePlayer now keys st)) in *.
  rewrite <- Hs, <- Hc. apply checkCollisions_spec.
Qed.

(* ===================================================================== *)
(** ** The score when the updater is queued *)
(* ===================================================================== *)

Lemma checkCollisionsQueued_eq (score0 x y : Z) (st : GameState) :
  checkCollisionsQueued score0 x y st =
  (setCollectibles (fst (collectMap x y (collectibles st) (score0, false))) st, []).
Proof. reflexivity. Qed.

(** A tick that passes the gate with an update pending, or that moves the
    player: where it runs the collision check and what it leaves. *)
Lemma updateGameScheduled_queued (pending : bool) (now : Z) (keys : gset string)
    (st : GameState) :
  gated now st = false ->
  let newX := Z.max 20 (Z.min 780 (fst (candidate keys (myPosition st)))) in
  let newY := Z.max 20 (Z.min 580 (snd (candidate keys (myPosition st)))) in
  (pending = true \/ {| p_x := newX; p_y := newY |} <> myPosition st) ->
  updateGameScheduled pending now keys st =
  (setCollectibles
     (fst (collectMap newX newY (collectibles st) (myScore st, false)))
     (fst (movePlayer now keys st)),
   snd (movePlayer now keys st)).
Proof.
  intros G newX newY H. unfold updateGameScheduled, movePlayer. rewrite G.
  destruct (candidate keys (myPosition st)) as [cx cy]. simpl fst in *. simpl snd in *.
  fold newX newY.
  destruct (negb (newX =? p_x (myPosition st)) || negb (newY =? p_y (myPosition st)))
    eqn:M.
  - rewrite orb_true_r.
    destruct (now - lastUpdateTime st >? 50); rewrite checkCollisionsQueued_eq;
      simpl; rewrite ?app_nil_r; reflexivity.
  - destruct H as [-> | Hne].
    + rewrite checkCollisionsQueued_eq. reflexivity.
    + exfalso. apply Hne. apply orb_false_elim in M as [M1 M2].
      apply negb_false_iff, Z.eqb_eq in M1, M2. rewrite M1, M2.
      destruct (myPosition st); reflexivity.
Qed.

Lemma movePlayer_events (now : Z) (keys : gset string) (st : GameState) (s : Z) :
  ~ In (ScoreUpdate s) (snd (movePlayer now keys st)).
Proof.
  unfold movePlayer.
  destruct (negb _ || negb _); [destruct (now - lastUpdateTime st >? 50)|];
    simpl; intuition discriminate.
Qed.

(** C10 fails in the program. A tick that moves the player has called
    [setMyPosition] before it calls [setCollectibles], and the first tick of
    a session runs with the [setCollectibles(items)] of the mount effect
    pending: React queues the updater of [checkCollisions], the test after
    the call reads [scoreChanged] as false, and the tick sets no score and
    sends none, while the queued updater marks every item in range as
    collected. In the worked session the tick at 1320 brings the player in
    range of three coins: they are collected, worth 30, and the score is
    still 0. In general such a tick collects the items the tick of
    [updateGame] collects and leaves the score as it was. *)
Theorem score_is_lost_when_updater_is_queued :
  (let run := runFramesScheduled true sampleFrames (initialState sampleItems) in
   myPosition (fst run) = {| p_x := 455; p_y := 385 |} /\
   List.map c_collected (collectibles (fst run)) =
     [false; true; false; false; false; false; false; false; true; false;
      false; false; false; false; false; true; false; false; false; false] /\
   collectedValue (collectibles (fst run)) = 30 /\
   myScore (fst run) = 0 /\
   snd run =
     [(1000, PositionUpdate 405 305); (1060, PositionUpdate 420 320);
      (1120, PositionUpdate 435 335); (1180, PositionUpdate 450 350);
      (1240, PositionUpdate 455 365); (1300, PositionUpdate 455 380)]) /\
  (forall (pending : bool) (now : Z) (keys : gset string) (st : GameState),
     gated now st = false ->
     let run := updateGameScheduled pending now keys st in
     pending = true \/ myPosition (fst run) <> myPosition st ->
     myScore (fst run) = myScore st /\
     (forall s, ~ In (ScoreUpdate s) (snd run)) /\
     myPosition (fst run) = myPosition (fst (updateGame now keys st)) /\
     collectibles (fst run) = collectibles (fst (updateGame now keys st)) /\
     collectedValue (collectibles (fst run)) =
       collectedValue (collectibles st) +
       gain (p_x (myPosition (fst run))) (p_y (myPosition (fst run))) (collectibles st)).
Proof.
  split; [vm_compute; repeat split; reflexivity|].
  intros pending now keys st G run H.
  set (newX := Z.max 20 (Z.min 780 (fst (candidate keys (myPosition st))))).
  set (newY := Z.max 20 (Z.min 580 (snd (candidate keys (myPosition st))))).
  assert (P : myPosition (fst (movePlayer now keys st)) = {| p_x := newX; p_y := newY |}).
  { unfold movePlayer. fold newX newY.
    destruct (negb (newX =? p_x (myPosition st)) || negb (newY =? p_y (myPosition st)))
      eqn:M.
    - destruct (now - lastUpdateTime st >? 50); reflexivity.
    - apply orb_false_elim in M as [M1 M2].
      apply negb_false_iff, Z.eqb_eq in M1, M2. rewrite M1, M2. simpl fst.
      destruct (myPosition st); reflexivity. }
  assert (Q0 : myPosition (fst run) = {| p_x := newX; p_y := newY |}).
  { unfold run, updateGameScheduled, movePlayer in *. rewrite G.
    destruct (candidate keys (myPosition st)) as [cx cy]. simpl fst in *. simpl snd in *.
    fold newX newY in P |- *.
    destruct (negb (newX =? p_x (myPosition st)) || negb (newY =? p_y (myPosition st))).
    - rewrite orb_true_r.
      destruct (now - lastUpdateTime st >? 50); rewrite checkCollisionsQueued_eq;
        simpl; reflexivity.
    - rewrite orb_false_r. destruct pending.
      + rewrite checkCollisionsQueued_eq. simpl. exact P.
      + pose proof (checkCollisions_frame (myScore st) newX newY st) as (Hp & _).
        destruct (checkCollisions (myScore st) newX newY st) as [st2 ev2].
        simpl in *. rewrite Hp. exact P. }
  assert (H' : pending = true \/ {| p_x := newX; p_y := newY |} <> myPosition st)
    by (destruct H as [H|H]; [left; exact H|right; rewrite <- Q0; exact H]).
  pose proof (updateGameScheduled_queued pending now keys st G H') as E.
  cbv zeta in E. fold newX newY in E. fold run in E.
  destruct (movePlayer_frame now keys st) as [Hc Hs].
  destruct (updateGame_score now keys st G) as (_ & Ec & _).
  rewrite (updateGame_position now keys st G) in Ec. simpl p_x in Ec. simpl p_y in Ec.
  fold newX newY in Ec.
  split; [rewrite E; simpl; exact Hs|].
  split; [intros s; rewrite E; simpl; apply movePlayer_events|].
  split; [rewrite Q0, (updateGame_position now keys st G); reflexivity|].
  split; [rewrite E, Ec; reflexivity|].
  rewrite Q0. simpl p_x. simpl p_y. rewrite E. simpl collectibles.
  apply (collectMap_spec newX newY (collectibles st) (myScore st) false).
Qed.

(* ===================================================================== *)
(** ** A collected item is inert *)
(* ===================================================================== *)

Lemma renderCollectibles_app (l1 l2 : list Collectible) :
  renderCollectibles (l1 ++ l2) = renderCollectibles l1 ++ renderCollectibles l2.
Proof.
  induction l1 as [|c l1 IH]; simpl; [reflexivity|].
  destruct (c_collected c); rewrite IH; reflexivity.
Qed.

(** The renderer draws nothing for a collected item. *)
Lemma renderCollectibles_skip (l1 l2 : list Collectible) (c : Collectible) :
  c_collected c = true ->
  renderCollectibles (l1 ++ c :: l2) = renderCollectibles (l1 ++ l2).
Proof.
  intros H. rewrite !renderCollectibles_app. simpl. rewrite H. reflexivity.
Qed.

Lemma checkCollisions_twins (c : Collectible) (n : nat) (score0 x y : Z)
    (st tw : GameState) :
  c_collected c = true -> twins c n st tw ->
  twins c n (fst (checkCollisions score0 x y st)) (fst (checkCollisions score0 x y tw)) /\
  snd (checkCollisions score0 x y st) = snd (checkCollisions score0 x y tw).
Proof.
  intros Hc (l1 & l2 & E1 & E2 & L & Hp & Hs & Hl & Hg).
  unfold checkCollisions. rewrite E1, E2.
  rewrite collectMap_skip by exact Hc. rewrite collectMap_app.
  pose proof (collectMap_length x y l1 (score0, false)) as L1.
  destruct (collectMap x y l1 (score0, false)) as [l1' acc1].
  destruct (collectMap x y l2 acc1) as [l2' [ns sc]]. simpl in L1.
  destruct (sc && negb (ns =? score0)); simpl; (split; [|reflexivity]);
    exists l1', l2'; simpl; repeat split; auto; congruence.
Qed.

Lemma movePlayer_twins (c : Collectible) (n : nat) (now : Z) (keys : gset string)
    (st tw : GameState) :
  twins c n st tw ->
  twins c n (fst (movePlayer now keys st)) (fst (movePlayer now keys tw)) /\
  snd (movePlayer now keys st) = snd (movePlayer now keys tw).
Proof.
  intros (l1 & l2 & E1 & E2 & L & Hp & Hs & Hl & Hg).
  unfold movePlayer. rewrite <- Hp, <- Hl.
  destruct (negb _ || negb _); [destruct (now - lastUpdateTime st >? 50)|];
    simpl; (split; [|reflexivity]); exists l1, l2; simpl; repeat split; auto.
Qed.

Lemma updateGame_twins (c : Collectible) (n : nat) (now : Z) (keys : gset string)
    (st tw : GameState) :
  c_collected c = true -> twins c n st tw ->
  twins c n (fst (updateGame now keys st)) (fst (updateGame now keys tw)) /\
  snd (updateGame now keys st) = snd (updateGame now keys tw).
Proof.
  intros Hc T.
  assert (G : gated now tw = gated now st).
  { destruct T as (_ & _ & _ & _ & _ & _ & _ & Hl & _). unfold gated. rewrite Hl.
    reflexivity. }
  destruct (gated now st) eqn:Gs.
  - rewrite !updateGame_gated by congruence. simpl. auto.
  - rewrite !updateGame_unfold by congruence. cbv zeta. simpl fst. simpl snd.
    destruct (movePlayer_twins c n now keys st tw T) as [T1 Ev1].
    assert (Hp : myPosition tw = myPosition st)
      by (destruct T as (_ & _ & _ & _ & _ & Hp & _); auto).
    assert (Hs : myScore tw = myScore st)
      by (destruct T as (_ & _ & _ & _ & _ & _ & Hs & _); auto).
    rewrite Hp, Hs, <- Ev1.
    match goal with
    | |- context [checkCollisions ?s ?a ?b (fst (movePlayer now keys st))] =>
        destruct (checkCollisions_twins c n s a b _ _ Hc T1) as [T2 Ev2]
    end.
    split; [exact T2|]. rewrite Ev2. reflexivity.
Qed.

Lemma runFrames_twins (c : Collectible) (n : nat) (frames : list Frame)
    (st tw : GameState) :
  c_collected c = true -> twins c n st tw ->
  twins c n (fst (runFrames frames st)) (fst (runFrames frames tw)) /\
  snd (runFrames frames st) = snd (runFrames frames tw).
Proof.
  intros Hc. revert st tw. induction frames as [|[now keys] rest IH];
    intros st tw T; simpl; [auto|].
  destruct (updateGame_twins c n now keys st tw Hc T) as [T1 Ev].
  destruct (updateGame now keys st) as [st1 ev].
  destruct (updateGame now keys tw) as [tw1 ev']. simpl in T1, Ev. subst ev'.
  destruct (IH st1 tw1 T1) as [T2 Log].
  destruct (runFrames rest st1) as [st2 log].
  destruct (runFrames rest tw1) as [tw2 log']. simpl in *. subst log'. auto.
Qed.

(** C3. Take any state in which the item [c] at index [length l1] has its
    collected flag set, and any sequence of frames from it, wherever they
    put the player. Afterwards the item is still at its index, unchanged and
    so still collected; and the score, the position, the events sent and
    the collectibles drawn are those of the same run on the state without
    the item: it adds nothing to the score and is not drawn. *)
Theorem collected_item_is_inert
    (l1 l2 : list Collectible) (c : Collectible) (st : GameState)
    (frames : list Frame) :
  collectibles st = l1 ++ c :: l2 ->
  c_collected c = true ->
  let run := runFrames frames st in
  let without := runFrames frames (setCollectibles (l1 ++ l2) st) in
  nth_error (collectibles (fst run)) (length l1) = Some c /\
  myScore (fst run) = myScore (fst without) /\
  myPosition (fst run) = myPosition (fst without) /\
  snd run = snd without /\
  renderCollectibles (collectibles (fst run)) =
    renderCollectibles (collectibles (fst without)).
Proof.
  intros E Hc run without.
  assert (T : twins c (length l1) st (setCollectibles (l1 ++ l2) st)).
  { exists l1, l2. simpl. repeat split; auto. }
  destruct (runFrames_twins c (length l1) frames _ _ Hc T) as [T' Log].
  fold run in T', Log. fold without in T', Log.
  destruct T' as (l1' & l2' & E1 & E2 & L & Hp & Hs & _ & _).
  repeat split; auto.
  - rewrite E1, <- L. rewrite nth_error_app2 by lia.
    rewrite Nat.sub_diag. reflexivity.
  - rewrite E1, E2. apply renderCollectibles_skip, Hc.
Qed.

(* ===================================================================== *)
(** ** Sorting by a score, descending *)
(* ===================================================================== *)

Section SortByKey.
Context {A : Type} (key : A -> Z).

(** The comparator [(a, b) => key(b) - key(a)]. *)
Let cmp (a b : A) : Z := key b - key a.

Lemma insertBy_perm (x : A) (l : list A) : Permutation (x :: l) (insertBy cmp x l).
Proof.
  induction l as [|y l IH]; simpl; [reflexivity|].
  destruct (cmp x y <=? 0); [reflexivity|].
  rewrite perm_swap. apply perm_skip, IH.
Qed.

Lemma sortBy_perm (l : list A) : Permutation l (sortBy cmp l).
Proof.
  induction l as [|x l IH]; simpl; [reflexivity|].
  rewrite <- insertBy_perm. apply perm_skip, IH.
Qed.

Lemma insertBy_descending (x : A) (l : list A) :
  descending key l -> descending key (insertBy cmp x l).
Proof.
  unfold descending. induction 1 as [|y l Hl IH Hy]; simpl.
  - constructor; constructor.
  - unfold cmp at 1. destruct (Z.leb_spec (key y - key x) 0) as [L|L].
    + constructor; [constructor; assumption|].
      constructor; [lia|].
      eapply List.Forall_impl; [|exact Hy]. simpl. intros; lia.
    + constructor; [exact IH|].
      eapply Permutation_Forall; [apply insertBy_perm|].
      constructor; [lia|exact Hy].
Qed.

Lemma sortBy_descending (l : list A) : descending key (sortBy cmp l).
Proof.
  induction l as [|x l IH]; simpl; [constructor|].
  apply insertBy_descending, IH.
Qed.

(** Inserting does not reorder the elements of one score. *)
Lemma insertBy_stable (s : Z) (x : A) (l : list A) :
  List.filter (fun a => key a =? s) (insertBy cmp x l) =
  List.filter (fun a => key a =? s) (x :: l).
Proof.
  induction l as [|y l IH]; [reflexivity|].
  simpl insertBy. unfold cmp at 1.
  destruct (Z.leb_spec (key y - key x) 0) as [L|L]; [reflexivity|].
  simpl in *. rewrite IH.
  destruct (Z.eqb_spec (key x) s), (Z.eqb_spec (key y) s); try reflexivity; lia.
Qed.

Lemma sortBy_stable (s : Z) (l : list A) :
  List.filter (fun a => key a =? s) (sortBy cmp l) =
  List.filter (fun a => key a =? s) l.
Proof.
  induction l as [|x l IH]; [reflexivity|].
  simpl sortBy. rewrite insertBy_stable. simpl. rewrite IH. reflexivity.
Qed.

Lemma filter_length_perm (f : A -> bool) (l l' : list A) :
  Permutation l l' -> length (List.filter f l) = length (List.filter f l').
Proof.
  induction 1 as [|x l l' _ IH|x y l|l l' l'' _ IH1 _ IH2]; simpl.
  - reflexivity.
  - destruct (f x); simpl; congruence.
  - destruct (f x), (f y); reflexivity.
  - congruence.
Qed.

Lemma existsb_perm (f : A -> bool) (l l' : list A) :
  Permutation l l' -> existsb f l = existsb f l'.
Proof.
  induction 1 as [|x l l' _ IH|x y l|l l' l'' _ IH1 _ IH2]; simpl.
  - reflexivity.
  - rewrite IH. reflexivity.
  - destruct (f x), (f y); reflexivity.
  - congruence.
Qed.

(** [findIndex]: where it starts counting only shifts the result. *)
Lemma findIndexFrom_shift (p : A -> bool) (l : list A) (k : Z) :
  findIndexFrom p l k =
  if existsb p l then k + findIndexFrom p l 0 else -1.
Proof.
  revert k. induction l as [|x l IH]; intros k; simpl; [reflexivity|].
  destruct (p x); simpl; [lia|].
  rewrite (IH (k + 1)), (IH (0 + 1)). destruct (existsb p l); lia.
Qed.

Lemma findIndexFrom_nonneg (p : A -> bool) (l : list A) (k : Z) :
  0 <= k -> existsb p l = true -> k <= findIndexFrom p l k.
Proof.
  revert k. induction l as [|x l IH]; intros k Hk; simpl; [discriminate|].
  destruct (p x); simpl; [lia|]. intros H.
  specialize (IH (k + 1) ltac:(lia) H). lia.
Qed.

(** What [findIndex] returns when it finds something: the index of the
    first element that satisfies [p]. *)
Lemma findIndex_first (p : A -> bool) (l : list A) :
  existsb p l = true ->
  exists k x, findIndex p l = Z.of_nat k /\ nth_error l k = Some x /\
    p x = true /\
    forall j y, (j < k)%nat -> nth_error l j = Some y -> p y = false.
Proof.
  unfold findIndex. induction l as [|x l IH]; simpl; [discriminate|].
  destruct (p x) eqn:Px; simpl.
  - intros _. exists 0%nat, x. repeat split; auto. intros j y Hj. lia.
  - intros H. destruct (IH H) as (k & z & E & N & Pz & Hfirst).
    exists (S k), z. rewrite findIndexFrom_shift, H, E.
    repeat split; auto; [lia|].
    intros [|j] y Hj Hy; simpl in Hy; [congruence|].
    eapply Hfirst; eauto. lia.
Qed.

Lemma findIndex_none (p : A -> bool) (l : list A) :
  existsb p l = false -> findIndex p l = -1.
Proof.
  intros H. unfold findIndex. rewrite findIndexFrom_shift, H. reflexivity.
Qed.

Lemma descending_head_bound (y : A) (l : list A) (s : Z) :
  descending key (y :: l) -> key y <= s ->
  List.filter (fun a => key a >? s) l = [].
Proof.
  intros D Hy. inversion D as [|? ? _ F]; subst. clear D.
  induction l as [|z l IH]; [reflexivity|]. simpl.
  inversion F; subst. destruct (Z.gtb_spec (key z) s); [lia|]. auto.
Qed.

(** In a descending list, the first element satisfying [p], all of whose
    elements have the score [s], comes after those of a higher score and
    at its place among those of score [s]. *)
Lemma findIndex_descending (p : A -> bool) (s : Z) (l : list A) :
  descending key l -> (forall x, p x = true -> key x = s) ->
  existsb p l = true ->
  findIndex p l =
  Z.of_nat (length (List.filter (fun a => key a >? s) l)) +
  findIndex p (List.filter (fun a => key a =? s) l).
Proof.
  intros D Hp. unfold findIndex. induction l as [|y l IH]; simpl; [discriminate|].
  assert (D' : descending key l) by (inversion D; assumption).
  destruct (p y) eqn:Py; simpl.
  - intros _. pose proof (Hp y Py) as Ky.
    rewrite (descending_head_bound y l s D) by lia.
    destruct (Z.gtb_spec (key y) s); [lia|].
    destruct (Z.eqb_spec (key y) s); [|lia]. simpl. rewrite Py. reflexivity.
  - intros H. rewrite findIndexFrom_shift, H, (IH D' H).
    destruct (Z.gtb_spec (key y) s) as [G|G].
    + destruct (Z.eqb_spec (key y) s); [lia|]. simpl length. lia.
    + destruct (Z.eqb_spec (key y) s) as [E|E].
      * rewrite (descending_head_bound y l s D) by lia. simpl.
        rewrite Py. rewrite (findIndexFrom_shift p _ (0 + 1)).
        assert (X : existsb p (List.filter (fun a => key a =? s) l) = true).
        { apply existsb_exists in H as (x & Hin & Px).
          apply existsb_exists. exists x. split; [|exact Px].
          apply filter_In. split; [exact Hin|]. apply Z.eqb_eq, Hp, Px. }
        rewrite X. lia.
      * (* every later element is below [s]: none satisfies [p] *)
        exfalso. apply existsb_exists in H as (x & Hin & Px).
        pose proof (Hp x Px) as Kx. inversion D as [|? ? _ F]; subst.
        rewrite List.Forall_forall in F. specialize (F x Hin). lia.
Qed.

(** Filtering by a property of every element satisfying [p] keeps the
    first such element at the number of kept elements before it. *)
Lemma findIndex_filter (p q : A -> bool) (l : list A) :
  (forall x, p x = true -> q x = true) ->
  existsb p l = true ->
  findIndex p (List.filter q l) =
  Z.of_nat (length (List.filter q (firstn (Z.to_nat (findIndex p l)) l))).
Proof.
  intros Hpq. unfold findIndex. induction l as [|y l IH]; simpl; [discriminate|].
  destruct (p y) eqn:Py; simpl.
  - intros _. rewrite (Hpq y Py). simpl. rewrite Py. reflexivity.
  - intros H. pose proof (findIndexFrom_nonneg p l 1 ltac:(lia) H) as N.
    change (0 + 1) with 1.
    replace (Z.to_nat (findIndexFrom p l 1))
      with (S (Z.to_nat (findIndexFrom p l 0)))
      by (rewrite (findIndexFrom_shift p l 1), H;
          pose proof (findIndexFrom_nonneg p l 0 ltac:(lia) H); lia).
    simpl firstn. simpl List.filter.
    destruct (q y); simpl.
    + rewrite Py. rewrite (findIndexFrom_shift p _ (0 + 1)).
      assert (X : existsb p (List.filter q l) = true).
      { apply existsb_exists in H as (x & Hin & Px).
        apply existsb_exists. exists x. split; [|exact Px].
        apply filter_In. split; [exact Hin|]. apply Hpq, Px. }
      rewrite X, (IH H). lia.
    + apply IH, H.
Qed.
End SortByKey.

(* ===================================================================== *)
(** ** Properties of the session finalizer *)
(* ===================================================================== *)

Lemma sortedPlayers_eq (me : string) (myScore : Z) (roomPlayers : list RoomPlayer) :
  sortedPlayers me myScore roomPlayers =
  sortBy (fun a b => scoreOf me myScore b - scoreOf me myScore a) roomPlayers.
Proof. reflexivity. Qed.

Lemma isMe_scoreOf (me : string) (myScore : Z) (rp : RoomPlayer) :
  isMe me rp = true -> scoreOf me myScore rp = myScore.
Proof. unfold isMe, scoreOf. intros ->. reflexivity. Qed.

(** The rank [endGame] computes, counted on the room list itself. *)
Lemma myRank_counts (me : string) (myScore : Z) (roomPlayers : list RoomPlayer) :
  existsb (isMe me) roomPlayers = true ->
  myRank me myScore roomPlayers =
  1 + Z.of_nat (length (List.filter (fun rp => scoreOf me myScore rp >? myScore)
                                    roomPlayers))
    + Z.of_nat (length (List.filter (fun rp => scoreOf me myScore rp =? myScore)
                  (firstn (Z.to_nat (findIndex (isMe me) roomPlayers)) roomPlayers))).
Proof.
  intros H. unfold myRank. rewrite sortedPlayers_eq.
  set (key := scoreOf me myScore).
  pose proof (sortBy_perm key roomPlayers) as P.
  rewrite (findIndex_descending key (isMe me) myScore).
  - rewrite sortBy_stable.
    rewrite <- (filter_length_perm _ _ _ P).
    rewrite (findIndex_filter (isMe me) (fun rp => key rp =? myScore)); [lia| |exact H].
    intros x Hx. apply Z.eqb_eq, isMe_scoreOf, Hx.
  - apply sortBy_descending.
  - intros x Hx. apply isMe_scoreOf, Hx.
  - rewrite <- (existsb_perm _ _ _ P). exact H.
Qed.

(** X26. [endGame] ranks with the score [scoreOf]: the [myScore] its closure
    holds for the local participant, the score of the entry in the list its
    closure holds for every other one. The sorted
    list is a permutation of the room list, descending in that score, and
    keeps the participants of equal score in the order of the room list.
    The rank is 0 when the local participant is not in the list; otherwise
    it is the 1-based index of the local participant in the sorted list,
    which is one more than the number of participants with a higher score
    plus the number of those with the same score that precede the local
    participant in the room list. *)
Theorem ranking_is_stable_descending
    (me : string) (localScore : Z) (roomPlayers : list RoomPlayer) :
  let score := scoreOf me localScore in
  let sorted := sortedPlayers me localScore roomPlayers in
  (forall rp, (rp_player_id rp = me -> score rp = localScore) /\
              (rp_player_id rp <> me -> score rp = rp_score rp)) /\
  Permutation roomPlayers sorted /\
  StronglySorted (fun a b => score b <= score a) sorted /\
  (forall s, List.filter (fun rp => score rp =? s) sorted =
             List.filter (fun rp => score rp =? s) roomPlayers) /\
  (existsb (isMe me) roomPlayers = false -> myRank me localScore roomPlayers = 0) /\
  (existsb (isMe me) roomPlayers = true ->
   exists k rp,
     myRank me localScore roomPlayers = Z.of_nat k + 1 /\
     nth_error sorted k = Some rp /\ rp_player_id rp = me /\
     (forall j rp', (j < k)%nat -> nth_error sorted j = Some rp' ->
                    rp_player_id rp' <> me) /\
     Z.of_nat k =
       Z.of_nat (length (List.filter (fun rp => score rp >? localScore) roomPlayers))
       + Z.of_nat (length (List.filter (fun rp => score rp =? localScore)
           (firstn (Z.to_nat (findIndex (isMe me) roomPlayers)) roomPlayers)))).
Proof.
  intros score sorted.
  pose proof (sortBy_perm score roomPlayers) as P.
  split; [|split; [|split; [|split; [|split]]]].
  - intros rp. unfold score, scoreOf. split.
    + intros ->. rewrite String.eqb_refl. reflexivity.
    + intros Hne. apply String.eqb_neq in Hne. rewrite Hne. reflexivity.
  - exact P.
  - apply (sortBy_descending score).
  - intros s. apply (sortBy_stable score).
  - intros H. unfold myRank. rewrite findIndex_none; [reflexivity|].
    rewrite sortedPlayers_eq, <- (existsb_perm _ _ _ P). exact H.
  - intros H.
    assert (H' : existsb (isMe me) sorted = true)
      by (unfold sorted; rewrite sortedPlayers_eq, <- (existsb_perm _ _ _ P); exact H).
    destruct (findIndex_first (isMe me) sorted H') as (k & rp & E & N & Prp & First).
    exists k, rp. split; [unfold myRank; fold sorted; lia|].
    split; [exact N|]. split; [apply String.eqb_eq, Prp|]. split.
    + intros j rp' Hj Hn. apply String.eqb_neq. exact (First j rp' Hj Hn).
    + pose proof (myRank_counts me localScore roomPlayers H) as C.
      unfold myRank in C. fold sorted in C. fold score in C. lia.
Qed.

(** C7 fails in the program. The countdown calls the [endGame] of the first
    render, which ranks with the [myScore] and the room list of that render.
    In [roomAtStart] nobody has scored and the local participant is second
    in the list; when the countdown ends the local score is 20 and the
    other participant has 10, so that the local participant is first in the
    order the claim describes. What is written is score 0 and rank 2. In
    [roomLocalFirst] the local participant is first in the list; when the
    other participant has 50 at the end and the local score is 0, the local
    participant is second in that order, and rank 1 is written. What the
    render at the end holds has no part in the writes. *)
Theorem interval_ranks_with_first_render :
  (let first := firstRender "room-1" samplePlayer roomAtStart "collector" in
   myRank "me" (rd_myScore renderAtEnd) (rd_roomPlayers renderAtEnd) = 1 /\
   endGameFromInterval first renderAtEnd =
     [ InsertGameScore "room-1" "me" 0 2 "collector";
       UpdatePlayerStats "me" 120 4 1;
       UpdateRoomStatus "room-1" "finished" ]) /\
  (let first := firstRender "room-2" samplePlayer roomLocalFirst "collector" in
   let atEnd := [ mkRoomPlayer "rp-5" "me" 400 300 0 true;
                  mkRoomPlayer "rp-6" "bob" 200 200 50 true ] in
   let current := mkRender "room-2" samplePlayer atEnd "collector" 0 in
   myRank "me" (rd_myScore current) (rd_roomPlayers current) = 2 /\
   endGameFromInterval first current =
     [ InsertGameScore "room-2" "me" 0 1 "collector";
       UpdatePlayerStats "me" 120 4 2;
       UpdateRoomStatus "room-2" "finished" ]) /\
  (forall roomId player roomPlayers gameType current,
     endGameFromInterval (firstRender roomId player roomPlayers gameType) current =
     endGame roomId player roomPlayers gameType 0).
Proof.
  split; [vm_compute; split; reflexivity|].
  split; [vm_compute; split; reflexivity|].
  reflexivity.
Qed.

(** C8 fails in the program. The [endGame] the countdown calls is the one
    of the first render: it adds the [myScore] of that render, 0, to the
    total, and not the score of the session, 20 here. It also starts from
    the [player] the canvas was given, which [App] takes from [usePlayer]
    and which no write of [endGame] changes: in a second session of the same
    page load the statistics are computed from the same numbers again. The
    player with 3 games and 1 win wins in room 2 and has 4 games and 2 wins
    stored; after losing in room 3 the row holds 4 games and 1 win. *)
Theorem interval_writes_stale_statistics :
  (let first := firstRender "room-1" samplePlayer roomAtStart "collector" in
   rd_myScore renderAtEnd = 20 /\
   storedStats "me" (120, 3, 1) (endGameOf renderAtEnd) = (140, 4, 2) /\
   storedStats "me" (120, 3, 1) (endGameFromInterval first renderAtEnd) = (120, 4, 1)) /\
  (let inRoom2 := handleJoinRoom "room-2" sampleApp in
   let inRoom3 := handleJoinRoom "room-3" (handleLeaveRoom inRoom2) in
   forall current2 current3,
   exists first2 first3,
     canvasFirstRender inRoom2 roomLocalFirst "collector" = Some first2 /\
     canvasFirstRender inRoom3 roomLocalSecond "collector" = Some first3 /\
     rd_player first2 = samplePlayer /\ rd_player first3 = samplePlayer /\
     storedStats "me" (120, 3, 1) (endGameFromInterval first2 current2) = (120, 4, 2) /\
     storedStats "me" (120, 4, 2) (endGameFromInterval first3 current3) = (120, 4, 1)).
Proof.
  split; [vm_compute; repeat split; reflexivity|].
  intros inRoom2 inRoom3 current2 current3.
  exists (firstRender "room-2" samplePlayer roomLocalFirst "collector"),
         (firstRender "room-3" samplePlayer roomLocalSecond "collector").
  split; [reflexivity|]. split; [reflexivity|].
  vm_compute. repeat split; reflexivity.
Qed.

(* ===================================================================== *)
(** ** The worked session, checked *)
(* ===================================================================== *)

Example sampleState_values :
  myPosition sampleState = {| p_x := 455; p_y := 385 |} /\
  myScore sampleState = 30 /\
  List.map c_collected (collectibles sampleState) =
    [false; true; false; false; false; false; false; false; true; false;
     false; false; false; false; false; true; false; false; false; false] /\
  snd (runFrames sampleFrames (initialState sampleItems)) =
    [(1000, PositionUpdate 405 305); (1060, PositionUpdate 420 320);
     (1120, PositionUpdate 435 335); (1180, PositionUpdate 450 350);
     (1240, PositionUpdate 455 365); (1300, PositionUpdate 455 380);
     (1320, ScoreUpdate 30)].
Proof. vm_compute. repeat split; reflexivity. Qed.

Example countdown_reaches_zero_after_60_firings :
  runTimer 59 60 = (1, 0%nat) /\ runTimer 60 60 = (0, 1%nat) /\
  runTimer 61 60 = (0, 2%nat).
Proof. vm_compute. repeat split; reflexivity. Qed.

(** The ranking example of the specification: the tie at 50 goes to the
    local participant, who comes first in the room list. *)
Example specRoom_rank :
  List.map rp_player_id (sortedPlayers "me" 50 specRoom) = ["me"; "bob"; "alice"; "carol"] /\
  myRank "me" 50 specRoom = 1.
Proof. vm_compute. split; reflexivity. Qed.

Lemma initializeCollectibles_field_witness :
  initializeCollectibles sampleClock sampleRnd = Some sampleItems /\
  length sampleItems = 20%nat /\
  (sampleRnd (3 * 4) < (5 # 6) - drawMargin)%Q /\
  (exists item, nth_error sampleItems 4 = Some item /\ c_type item = gem) /\
  (weight coin = 3 * weight star)%nat.
Proof.
  assert (I : initializeCollectibles sampleClock sampleRnd = Some sampleItems)
    by (vm_compute; reflexivity).
  assert (U : (sampleRnd (3 * 4) < (5 # 6) - drawMargin)%Q) by (vm_compute; reflexivity).
  destruct (initializeCollectibles_field sampleClock sampleRnd)
    as ((items & E & L & H) & _ & (W & _)).
  - intros k. unfold sampleRnd, Qle, Qlt. simpl.
    pose proof (Nat.mod_upper_bound k 7 ltac:(lia)). lia.
  - rewrite I in E. injection E as <-.
    split; [exact I|]. split; [exact L|]. split; [exact U|]. split; [|exact W].
    destruct (nth_error sampleItems 4) as [item|] eqn:N; [|discriminate N].
    exists item. split; [reflexivity|].
    destruct (H 4%nat item N) as (_ & _ & _ & _ & G & _).
    apply G; [vm_compute; discriminate|exact U].
Defined.

Lemma collected_item_is_inert_witness :
  collectibles sampleState =
    firstn 1 (collectibles sampleState) ++ sampleCoin :: skipn 2 (collectibles sampleState) /\
  c_collected sampleCoin = true /\
  nth_error (collectibles (fst (runFrames laterFrames sampleState))) 1 = Some sampleCoin /\
  myScore (fst (runFrames laterFrames sampleState)) =
  myScore (fst (runFrames laterFrames
     (setCollectibles (firstn 1 (collectibles sampleState) ++
                       skipn 2 (collectibles sampleState)) sampleState))).
Proof.
  assert (E : collectibles sampleState =
    firstn 1 (collectibles sampleState) ++ sampleCoin :: skipn 2 (collectibles sampleState))
    by (vm_compute; reflexivity).
  assert (C : c_collected sampleCoin = true) by reflexivity.
  destruct (collected_item_is_inert _ _ _ sampleState laterFrames E C) as (N & S & _).
  repeat split; assumption.
Defined.

Lemma position_pushes_are_throttled_witness :
  nth_error (pushTimes (snd (runFrames sampleFrames (initialState sampleItems)))) 0
    = Some 1000 /\
  nth_error (pushTimes (snd (runFrames sampleFrames (initialState sampleItems)))) 1
    = Some 1060 /\
  50 < 1060 - 1000.
Proof.
  assert (H0 : nth_error (pushTimes (snd (runFrames sampleFrames (initialState sampleItems)))) 0
               = Some 1000) by (vm_compute; reflexivity).
  assert (H1 : nth_error (pushTimes (snd (runFrames sampleFrames (initialState sampleItems)))) 1
               = Some 1060) by (vm_compute; reflexivity).
  split; [exact H0|]. split; [exact H1|].
  exact (position_pushes_are_throttled sampleItems sampleFrames 0 1000 1060 H0 H1).
Defined.

Lemma movement_is_not_normalized_witness :
  let keys : gset string := {["w"; "d"]} in
  let st := initialState [] in
  gated 1000 st = false /\ diagonal keys = true /\
  myPosition (fst (updateGame 1000 keys st)) = {| p_x := 405; p_y := 295 |} /\
  displacement (myPosition st) (myPosition (fst (updateGame 1000 keys st)))
    = (5 * sqrt 2)%R.
Proof.
  intros keys st.
  assert (G : gated 1000 st = false) by reflexivity.
  assert (D : diagonal keys = true) by (vm_compute; reflexivity).
  assert (Hx : 20 <= fst (candidate keys (myPosition st)) <= 780)
    by (vm_compute; split; discriminate).
  assert (Hy : 20 <= snd (candidate keys (myPosition st)) <= 580)
    by (vm_compute; split; discriminate).
  destruct (movement_is_not_normalized 1000 keys st G Hx Hy) as [Diag _].
  destruct (Diag D) as (_ & _ & Dist).
  split; [exact G|]. split; [exact D|].
  split; [vm_compute; reflexivity|exact Dist].
Defined.

Lemma ranking_is_stable_descending_witness :
  existsb (isMe "me") specRoom = true /\ myRank "me" 50 specRoom = 1.
Proof.
  assert (H : existsb (isMe "me") specRoom = true) by reflexivity.
  split; [exact H|].
  destruct (ranking_is_stable_descending "me" 50 specRoom) as (_ & _ & _ & _ & _ & R).
  destruct (R H) as (k & rp & E & _ & _ & _ & C).
  change (Z.of_nat k = 0) in C. rewrite E, C. reflexivity.
Defined.

(* ===================================================================== *)
(** ** Properties of the input sampler *)
(* ===================================================================== *)

Lemma isMapped_lower (key : string) :
  isMapped key = true -> In (toLowerCase key) keyIds.
Proof.
  unfold isMapped, mappedKeys. simpl. intros H.
  repeat (apply orb_prop in H as [H|H];
          [apply String.eqb_eq in H; subst key; simpl; tauto|]).
  discriminate H.
Qed.

Lemma handleKeyEvent_ids (e : KeyEvent) (keys : gset string) :
  (forall k, k ∈ keys -> In k keyIds) ->
  forall k, k ∈ handleKeyEvent e keys -> In k keyIds.
Proof.
  intros Inv k. destruct e as [key|key]; simpl.
  - unfold handleKeyDown. destruct (isMapped key) eqn:M; simpl; [|apply Inv].
    rewrite elem_of_union, elem_of_singleton. intros [->|H]; [|apply Inv, H].
    apply isMapped_lower, M.
  - unfold handleKeyUp. rewrite elem_of_difference. intros [H _]. apply Inv, H.
Qed.

(** X1. Whatever keyboard events arrive, in whatever order, the set of held
    keys only ever contains the eight identifiers the simulation tick looks
    for. *)
Theorem held_keys_are_movement_ids (events : list KeyEvent) (k : string) :
  k ∈ handleKeyEvents events ∅ -> In k keyIds.
Proof.
  assert (G : forall keys, (forall k, k ∈ keys -> In k keyIds) ->
                           forall k, k ∈ handleKeyEvents events keys -> In k keyIds).
  { induction events as [|e rest IH]; intros keys Inv k'; simpl; [apply Inv|].
    apply IH. apply handleKeyEvent_ids, Inv. }
  apply G. intros k' H. apply elem_of_empty in H. destruct H.
Qed.

Lemma handleKeyEvent_held (id : string) (e : KeyEvent) (keys : gset string) :
  bool_decide (id ∈ handleKeyEvent e keys) =
  match e with
  | KeyDown key =>
      if isMapped key && String.eqb (toLowerCase key) id then true
      else bool_decide (id ∈ keys)
  | KeyUp key =>
      if String.eqb (toLowerCase key) id then false else bool_decide (id ∈ keys)
  end.
Proof.
  destruct e as [key|key]; simpl.
  - unfold handleKeyDown. destruct (isMapped key); simpl; [|reflexivity].
    destruct (String.eqb_spec (toLowerCase key) id) as [E|E].
    + apply bool_decide_eq_true. rewrite elem_of_union, elem_of_singleton. auto.
    + apply bool_decide_ext. rewrite elem_of_union, elem_of_singleton.
      split; [intros [C|C]; [congruence|exact C]|auto].
  - unfold handleKeyUp. destruct (String.eqb_spec (toLowerCase key) id) as [E|E].
    + apply bool_decide_eq_false. rewrite elem_of_difference, elem_of_singleton.
      intros [_ C]. auto.
    + apply bool_decide_ext. rewrite elem_of_difference, elem_of_singleton.
      split; [intros [C _]; exact C|intros C; split; [exact C|congruence]].
Qed.

(** X2. Each identifier is held or not according to the last event that
    concerns it alone: a press of a mapped key with that identifier holds
    it, a release of a key with that identifier (in any letter case) frees
    it, and events of other keys never change it. *)
Theorem held_key_follows_its_own_events
    (id : string) (events : list KeyEvent) (keys : gset string) :
  has (handleKeyEvents events keys) id = heldAfter id events (has keys id).
Proof.
  unfold has. revert keys. induction events as [|e rest IH]; intros keys; simpl.
  - reflexivity.
  - rewrite IH, handleKeyEvent_held. destruct e; reflexivity.
Qed.

(* ===================================================================== *)
(** ** Properties of the countdown and its display *)
(* ===================================================================== *)

Lemma runTimer_closed (n : nat) (t : Z) :
  0 <= t -> fst (runTimer n t) = Z.max 0 (t - Z.of_nat n).
Proof.
  revert t. induction n as [|n IH]; intros t Ht.
  - simpl. lia.
  - simpl runTimer. unfold timerTick. destruct (Z.leb_spec t 1).
    + specialize (IH 0 ltac:(lia)). destruct (runTimer n 0). simpl in *. lia.
    + specialize (IH (t - 1) ltac:(lia)). destruct (runTimer n (t - 1)).
      simpl in *. lia.
Qed.

(** X3. After [n] firings of the interval the countdown of a session is
    60 - n, and 0 from the 60th firing on; the Game Over overlay is shown
    exactly from the 60th firing on, and is never taken away again. *)
Theorem countdown_after_n_firings (n : nat) :
  let t := fst (runTimer n (gameTime (initialState []))) in
  t = Z.max 0 (60 - Z.of_nat n) /\
  (gameOverShown t = true <-> (60 <= n)%nat) /\
  (gameOverShown t = true ->
   forall m, gameOverShown (fst (runTimer (n + m) (gameTime (initialState [])))) = true).
Proof.
  cbv zeta. simpl gameTime.
  rewrite (runTimer_closed n 60) by lia.
  split; [reflexivity|]. unfold gameOverShown. split.
  - rewrite Z.eqb_eq. lia.
  - rewrite Z.eqb_eq. intros H m. rewrite (runTimer_closed (n + m) 60) by lia.
    apply Z.eqb_eq. lia.
Qed.

Lemma readClock_formatTime_upto_60 (t : Z) :
  0 <= t <= 60 ->
  readClock (formatTime t) = Some t /\ String.length (formatTime t) = 4%nat.
Proof.
  intros Ht.
  assert (A : forallb (fun k =>
                match readClock (formatTime (Z.of_nat k)) with
                | Some t' => (t' =? Z.of_nat k) &&
                             (String.length (formatTime (Z.of_nat k)) =? 4)%nat
                | None => false
                end) (seq 0 61) = true) by (vm_compute; reflexivity).
  rewrite forallb_forall in A. specialize (A (Z.to_nat t)).
  rewrite Z2Nat.id in A by lia.
  assert (I : In (Z.to_nat t) (seq 0 61)) by (apply in_seq; lia).
  specialize (A I). destruct (readClock (formatTime t)) as [t'|]; [|discriminate].
  apply andb_prop in A as [A1 A2].
  apply Z.eqb_eq in A1. apply Nat.eqb_eq in A2. subst t'. auto.
Qed.

(** X4. At every moment of a session the clock in the header has the shape
    m:ss (four characters, two of them for the seconds), and reading it back
    as minutes and seconds gives the countdown. *)
Theorem clock_shows_the_countdown (n : nat) :
  let t := fst (runTimer n (gameTime (initialState []))) in
  readClock (formatTime t) = Some t /\ String.length (formatTime t) = 4%nat.
Proof.
  cbv zeta. apply readClock_formatTime_upto_60.
  simpl gameTime. rewrite (runTimer_closed n 60) by lia. lia.
Qed.

(* ===================================================================== *)
(** ** What a tick sends out *)
(* ===================================================================== *)

Lemma samePosition_spec (p q : Position) : samePosition p q = true <-> p = q.
Proof.
  unfold samePosition. destruct p as [a b], q as [c d]. simpl.
  rewrite andb_true_iff, !Z.eqb_eq. split; [intros [-> ->]; reflexivity|].
  intros [= -> ->]. auto.
Qed.

Lemma checkCollisions_sends (x y : Z) (st : GameState) :
  let st' := fst (checkCollisions (myScore st) x y st) in
  snd (checkCollisions (myScore st) x y st) =
  if myScore st' =? myScore st then [] else [ScoreUpdate (myScore st')].
Proof.
  unfold checkCollisions.
  destruct (collectMap x y (collectibles st) (myScore st, false)) as [items [ns sc]].
  destruct sc; simpl.
  - destruct (Z.eqb_spec ns (myScore st)) as [E|E]; simpl.
    + rewrite Z.eqb_refl. reflexivity.
    + apply Z.eqb_neq in E. rewrite E. reflexivity.
  - rewrite Z.eqb_refl. reflexivity.
Qed.

Lemma movePlayer_sends (now : Z) (keys : gset string) (st : GameState) :
  let st1 := fst (movePlayer now keys st) in
  let moved := negb (samePosition (myPosition st1) (myPosition st)) in
  snd (movePlayer now keys st) =
    (if moved && (now - lastUpdateTime st >? 50)
     then [PositionUpdate (p_x (myPosition st1)) (p_y (myPosition st1))] else []) /\
  lastUpdateTime st1 =
    (if moved && (now - lastUpdateTime st >? 50) then now else lastUpdateTime st).
Proof.
  unfold movePlayer, samePosition.
  set (nx := Z.max 20 (Z.min 780 (fst (candidate keys (myPosition st))))).
  set (ny := Z.max 20 (Z.min 580 (snd (candidate keys (myPosition st))))).
  destruct (Z.eqb_spec nx (p_x (myPosition st))) as [Ex|Ex];
    destruct (Z.eqb_spec ny (p_y (myPosition st))) as [Ey|Ey]; simpl;
    try (rewrite Z.eqb_refl; simpl; auto; fail);
    destruct (now - lastUpdateTime st >? 50); simpl;
    repeat match goal with
           | |- context [?a =? ?b] =>
               first [ rewrite (Z.eqb_refl a)
                     | replace (a =? b) with false by (symmetry; apply Z.eqb_neq; assumption) ]
           end; simpl; rewrite ?andb_false_r; simpl; auto.
Qed.

Lemma updateGame_sends (now : Z) (keys : gset string) (st : GameState) :
  let st' := fst (updateGame now keys st) in
  snd (updateGame now keys st) =
    (if pushesPosition now st st'
     then [PositionUpdate (p_x (myPosition st')) (p_y (myPosition st'))] else []) ++
    (if myScore st' =? myScore st then [] else [ScoreUpdate (myScore st')]) /\
  lastUpdateTime st' = (if pushesPosition now st st' then now else lastUpdateTime st).
Proof.
  cbv zeta. unfold pushesPosition. destruct (gated now st) eqn:G.
  - rewrite updateGame_gated by exact G. simpl. rewrite Z.eqb_refl. auto.
  - rewrite updateGame_unfold by exact G. cbv zeta. cbn [fst snd].
    destruct (movePlayer_sends now keys st) as [Ev Last]. cbv zeta in Ev, Last.
    destruct (movePlayer_frame now keys st) as [Hc Hs].
    set (st1 := fst (movePlayer now keys st)) in *.
    set (x := Z.max 20 (Z.min 780 (fst (candidate keys (myPosition st))))).
    set (y := Z.max 20 (Z.min 580 (snd (candidate keys (myPosition st))))).
    rewrite <- Hs.
    destruct (checkCollisions_frame (myScore st1) x y st1) as (Hp & Hl & _).
    pose proof (checkCollisions_sends x y st1) as Sc. cbv zeta in Sc.
    rewrite Hp, Hl, Ev, Sc, Last. simpl negb. rewrite andb_true_l. auto.
Qed.

(** X5. What a tick sends out, read off the states before and after it: one
    position update, with the new position, exactly when the tick passed the
    time gate, moved the player and more than 50 ms have passed since the
    stored time (which then becomes the time of the tick, and otherwise
    stays); then one score update, with the new score, exactly when the
    score changed. So a tick sends at most two events, and a player who does
    not move sends no position. *)
Theorem tick_sends_new_position_and_score (now : Z) (keys : gset string) (st : GameState) :
  let st' := fst (updateGame now keys st) in
  snd (updateGame now keys st) =
    (if pushesPosition now st st'
     then [PositionUpdate (p_x (myPosition st')) (p_y (myPosition st'))] else []) ++
    (if myScore st' =? myScore st then [] else [ScoreUpdate (myScore st')]) /\
  lastUpdateTime st' = (if pushesPosition now st st' then now else lastUpdateTime st) /\
  (length (snd (updateGame now keys st)) <= 2)%nat /\
  (myPosition st' = myPosition st ->
   forall x y, ~ In (PositionUpdate x y) (snd (updateGame now keys st))).
Proof.
  cbv zeta. destruct (updateGame_sends now keys st) as [Ev Last]. cbv zeta in Ev, Last.
  split; [exact Ev|]. split; [exact Last|]. split.
  - rewrite Ev, length_app.
    destruct (pushesPosition _ _ _), (_ =? _); simpl; lia.
  - intros Same x y H. rewrite Ev in H. unfold pushesPosition in H.
    rewrite Same in H.
    assert (S : samePosition (myPosition st) (myPosition st) = true)
      by (apply samePosition_spec; reflexivity).
    rewrite S, andb_false_r in H. simpl in H.
    destruct (_ =? _); simpl in H; [exact H|]. destruct H as [H|[]]. discriminate H.
Qed.

Lemma lastScorePushed_app (l1 l2 : list (Z * Event)) (s : Z) :
  lastScorePushed (l1 ++ l2) s = lastScorePushed l2 (lastScorePushed l1 s).
Proof.
  revert s. induction l1 as [|[t [x y|s']] l1 IH]; intros s; simpl; auto.
Qed.

Lemma runFrames_lastScorePushed (frames : list Frame) (st : GameState) :
  lastScorePushed (snd (runFrames frames st)) (myScore st) =
  myScore (fst (runFrames frames st)).
Proof.
  revert st. induction frames as [|[now keys] rest IH]; intros st; simpl.
  - reflexivity.
  - destruct (updateGame_sends now keys st) as [Ev _].
    cbv zeta in Ev.
    destruct (updateGame now keys st) as [st1 ev]. simpl in Ev.
    specialize (IH st1). destruct (runFrames rest st1) as [st2 log]. simpl in *.
    rewrite lastScorePushed_app, <- IH. f_equal. subst ev.
    rewrite map_app, lastScorePushed_app.
    destruct (pushesPosition now st st1); simpl;
      destruct (Z.eqb_spec (myScore st1) (myScore st)); simpl; congruence.
Qed.

Lemma updateGame_pushed_in_arena (now : Z) (keys : gset string) (st : GameState)
    (x y : Z) :
  In (PositionUpdate x y) (snd (updateGame now keys st)) ->
  inArena {| p_x := x; p_y := y |} /\
  myPosition (fst (updateGame now keys st)) = {| p_x := x; p_y := y |} /\
  myPosition st <> {| p_x := x; p_y := y |} /\
  50 < now - lastUpdateTime st.
Proof.
  destruct (updateGame_sends now keys st) as [Ev _].
  cbv zeta in Ev. rewrite Ev. clear Ev. unfold pushesPosition.
  destruct (gated now st) eqn:G; simpl.
  - destruct (_ =? _); simpl; [tauto|]. intros [H|[]]. discriminate H.
  - destruct (samePosition _ _) eqn:S; simpl.
    + destruct (_ =? _); simpl; [tauto|]. intros [H|[]]. discriminate H.
    + destruct (Z.gtb_spec (now - lastUpdateTime st) 50) as [L|L]; simpl.
      * intros H.
        assert (E : PositionUpdate (p_x (myPosition (fst (updateGame now keys st))))
                      (p_y (myPosition (fst (updateGame now keys st))))
                    = PositionUpdate x y).
        { destruct H as [H|H]; [exact H|].
          destruct (_ =? _); simpl in H; [tauto|]. destruct H as [H|[]].
          discriminate H. }
        injection E as Ex Ey.
        assert (P : myPosition (fst (updateGame now keys st)) = {| p_x := x; p_y := y |})
          by (destruct (myPosition (fst (updateGame now keys st))); simpl in *; congruence).
        assert (A : inArena {| p_x := x; p_y := y |}).
        { rewrite <- P, updateGame_position by exact G. unfold inArena. simpl. lia. }
        split; [exact A|]. split; [exact P|]. split; [|lia].
        intros Q. rewrite <- P in Q. symmetry in Q. apply samePosition_spec in Q.
        congruence.
      * destruct (_ =? _); simpl; [tauto|]. intros [H|[]]. discriminate H.
Qed.

Lemma runFrames_pushed_in_arena
    (frames : list Frame) (st : GameState) (t x y : Z) :
  In (t, PositionUpdate x y) (snd (runFrames frames st)) ->
  inArena {| p_x := x; p_y := y |}.
Proof.
  revert st. induction frames as [|[now keys] rest IH]; intros st; simpl.
  - intros [].
  - pose proof (updateGame_pushed_in_arena now keys st x y) as P.
    destruct (updateGame now keys st) as [st1 ev]. simpl in P.
    specialize (IH st1). destruct (runFrames rest st1) as [st2 log]. simpl in *.
    rewrite in_app_iff, in_map_iff. intros [(e & [= _ ->] & H)|H].
    + apply P, H.
    + apply IH, H.
Qed.

(* ===================================================================== *)
(** ** What ticks do to the collectibles *)
(* ===================================================================== *)

Lemma sameItem_refl (c : Collectible) : sameItem c c.
Proof. unfold sameItem. auto 7. Qed.

Lemma sameItem_trans (a b c : Collectible) : sameItem a b -> sameItem b c -> sameItem a c.
Proof.
  unfold sameItem. intros (A1 & A2 & A3 & A4 & A5 & A6) (B1 & B2 & B3 & B4 & B5 & B6).
  repeat split; try congruence. auto.
Qed.

Lemma collectMap_sameItem (x y : Z) (l : list Collectible) (acc : Z * bool) :
  Forall2 sameItem l (fst (collectMap x y l acc)).
Proof.
  revert acc. induction l as [|item l IH]; intros acc; simpl; [constructor|].
  destruct (collectItem x y item acc) as [item' acc'] eqn:E.
  specialize (IH acc'). destruct (collectMap x y l acc') as [l' acc''].
  simpl in *. constructor; [|exact IH].
  unfold collectItem in E. destruct acc as [s b].
  destruct (c_collected item) eqn:C.
  - injection E as <- _. apply sameItem_refl.
  - destruct (collides 20 x y item); injection E as <- _.
    + unfold sameItem. simpl. auto 7.
    + apply sameItem_refl.
Qed.

Lemma Forall2_sameItem_refl (l : list Collectible) : Forall2 sameItem l l.
Proof. induction l; constructor; auto using sameItem_refl. Qed.

Lemma Forall2_sameItem_trans (l1 l2 l3 : list Collectible) :
  Forall2 sameItem l1 l2 -> Forall2 sameItem l2 l3 -> Forall2 sameItem l1 l3.
Proof.
  intros H. revert l3. induction H as [|a b l1 l2 Hab _ IH]; intros l3 H3.
  - inversion H3. constructor.
  - inversion H3; subst. constructor; [eapply sameItem_trans; eauto|auto].
Qed.

Lemma updateGame_sameItem (now : Z) (keys : gset string) (st : GameState) :
  Forall2 sameItem (collectibles st) (collectibles (fst (updateGame now keys st))).
Proof.
  destruct (gated now st) eqn:G.
  - rewrite updateGame_gated by exact G. apply Forall2_sameItem_refl.
  - destruct (updateGame_score now keys st G) as (_ & E & _). rewrite E.
    apply collectMap_sameItem.
Qed.

Lemma runFrames_sameItem (frames : list Frame) (st : GameState) :
  Forall2 sameItem (collectibles st) (collectibles (fst (runFrames frames st))).
Proof.
  revert st. induction frames as [|[now keys] rest IH]; intros st; simpl.
  - apply Forall2_sameItem_refl.
  - pose proof (updateGame_sameItem now keys st) as H1.
    destruct (updateGame now keys st) as [st1 ev]. simpl in H1.
    specialize (IH st1). destruct (runFrames rest st1) as [st2 log]. simpl in *.
    eapply Forall2_sameItem_trans; eauto.
Qed.

Lemma sameItem_remaining (l l' : list Collectible) :
  Forall2 sameItem l l' -> (remaining l' <= remaining l)%nat.
Proof.
  unfold remaining. induction 1 as [|a b l l' (_ & _ & _ & _ & _ & Hc) _ IH]; simpl; [lia|].
  destruct (c_collected a) eqn:Ca; simpl.
  - rewrite (Hc eq_refl). simpl. exact IH.
  - destruct (c_collected b); simpl; lia.
Qed.

Lemma sameItem_drawn (l l' : list Collectible) :
  Forall2 sameItem l l' -> sublist (renderCollectibles l') (renderCollectibles l).
Proof.
  induction 1 as [|a b l l' (_ & Hx & Hy & Ht & _ & Hc) _ IH]; simpl; [constructor|].
  destruct (c_collected a) eqn:Ca.
  - rewrite (Hc eq_refl). exact IH.
  - destruct (c_collected b).
    + apply sublist_cons, IH.
    + rewrite Hx, Hy, Ht. apply sublist_skip, IH.
Qed.

(** X6. Over any run of frames the collectibles stay the same items in the
    same order: each keeps its id, position, kind and value, and its flag
    only ever goes from uncollected to collected. So the number of
    uncollected items never grows, and what the renderer draws after the run
    is what it drew before with some shapes taken away: nothing respawns,
    moves or changes kind. *)
Theorem collectibles_only_get_collected (frames : list Frame) (st : GameState) :
  let st' := fst (runFrames frames st) in
  Forall2 sameItem (collectibles st) (collectibles st') /\
  length (collectibles st') = length (collectibles st) /\
  (remaining (collectibles st') <= remaining (collectibles st))%nat /\
  sublist (renderCollectibles (collectibles st')) (renderCollectibles (collectibles st)).
Proof.
  cbv zeta. pose proof (runFrames_sameItem frames st) as H.
  split; [exact H|]. split; [symmetry; eapply Forall2_length; exact H|].
  split; [apply sameItem_remaining, H|apply sameItem_drawn, H].
Qed.

Lemma collectMap_flags (x y : Z) (l : list Collectible) (acc : Z * bool) :
  Forall2 (fun old new => c_collected new = c_collected old || collides 20 x y old)
          l (fst (collectMap x y l acc)).
Proof.
  revert acc. induction l as [|item l IH]; intros acc; simpl; [constructor|].
  destruct (collectItem x y item acc) as [item' acc'] eqn:E.
  specialize (IH acc'). destruct (collectMap x y l acc') as [l' acc''].
  simpl in *. constructor; [|exact IH].
  unfold collectItem in E. destruct acc as [s b].
  destruct (c_collected item) eqn:C.
  - injection E as <- _. rewrite C. reflexivity.
  - destruct (collides 20 x y item); injection E as <- _; simpl; auto.
Qed.

Lemma collides_range (x y : Z) (item : Collectible) :
  collides 20 x y item = true <-> (distanceSquared x y item < 1225)%Q.
Proof.
  unfold collides, distanceSquared, Qltb. cbv zeta.
  change (inject_Z ((20 + 15) * (20 + 15))) with 1225%Q.
  rewrite negb_true_iff. split.
  - intros H. apply Qnot_le_lt. intros L. apply Qle_bool_iff in L. congruence.
  - intros L. destruct (Qle_bool _ _) eqn:B; [|reflexivity].
    apply Qle_bool_iff in B. exfalso. exact (Qlt_not_le _ _ L B).
Qed.

(** X7. A tick that passes the time gate collects the items in range of the
    new position and no others. An item that was collected stays so; an
    item within 34.999 of the new position is collected afterwards; an item
    35.001 or more away keeps its flag. (The range is 35, player radius 20
    plus 15; within a thousandth of it the rounding of the distance
    decides.) *)
Theorem tick_collects_items_in_range
    (now : Z) (keys : gset string) (st : GameState) :
  gated now st = false ->
  let st' := fst (updateGame now keys st) in
  let x := p_x (myPosition st') in
  let y := p_y (myPosition st') in
  Forall2 (fun old new =>
             (c_collected old = true -> c_collected new = true) /\
             ((distanceSquared x y old <= insideRange)%Q -> c_collected new = true) /\
             ((outsideRange <= distanceSquared x y old)%Q ->
              c_collected new = c_collected old))
          (collectibles st) (collectibles st').
Proof.
  intros G. cbv zeta. destruct (updateGame_score now keys st G) as (_ & E & _).
  rewrite E.
  set (x := p_x (myPosition (fst (updateGame now keys st)))).
  set (y := p_y (myPosition (fst (updateGame now keys st)))).
  eapply List.Forall2_impl; [|apply collectMap_flags].
  intros old new Hf. pose proof (collides_range x y old) as R.
  split; [intros C; rewrite Hf, C; reflexivity|]. split.
  - intros L. rewrite Hf. apply orb_true_iff. right. apply R.
    eapply Qle_lt_trans; [exact L|]. reflexivity.
  - intros L. rewrite Hf. destruct (collides 20 x y old); [|apply orb_false_r].
    exfalso. assert (K : (distanceSquared x y old < 1225)%Q) by (apply R; reflexivity).
    apply (Qlt_not_le _ _ K). eapply Qle_trans; [|exact L].
    unfold outsideRange, Qle. simpl. lia.
Qed.

(* ===================================================================== *)
(** ** Where the field puts the items *)
(* ===================================================================== *)

Lemma scaled_draw_bounds (r : Q) (w : Z) :
  0 < w -> (0 <= r)%Q -> (r < 1)%Q ->
  (25 <= r * inject_Z w + 25)%Q /\ (r * inject_Z w + 25 < inject_Z (w + 25))%Q.
Proof.
  destruct r as [n d]. unfold Qle, Qlt, Qplus, Qmult, inject_Z. simpl.
  intros Hw H0 H1. rewrite !Pos.mul_1_r, !Z.mul_1_r in *. nia.
Qed.

Lemma pushCollectibles_positions (clock : nat -> Z) (rnd : nat -> Q)
    (n from : nat) (items : list Collectible) :
  pushCollectibles clock rnd from n = Some items ->
  forall i item, nth_error items i = Some item ->
    c_x item = (rnd (3 * (from + i) + 1)%nat * 750 + 25)%Q /\
    c_y item = (rnd (3 * (from + i) + 2)%nat * 550 + 25)%Q.
Proof.
  revert from items. induction n as [|n IH]; intros from items;
    cbn [pushCollectibles].
  - intros [= <-] [|i] item; discriminate.
  - unfold makeCollectible.
    destruct (pickType (rnd (3 * from)%nat)) as [t|]; [|discriminate].
    destruct (pushCollectibles clock rnd (S from) n) as [rest|] eqn:E; [|discriminate].
    intros [= <-] [|i] item Hn; cbn [nth_error] in Hn.
    + injection Hn as <-. cbn [c_x c_y].
      replace (3 * (from + 0))%nat with (from + (from + (from + 0)))%nat by lia. auto.
    + replace (from + S i)%nat with (S from + i)%nat by lia.
      eapply IH; eauto.
Qed.

(** X8. With [Math.random()] in the unit interval, every generated item
    lies in [25, 775) x [25, 575), strictly inside the 20-unit margin of the
    arena; item [i] takes its x from draw [3 * i + 1] and its y from draw
    [3 * i + 2]. *)
Theorem generated_items_lie_inside_the_margin
    (clock : nat -> Z) (rnd : nat -> Q) (items : list Collectible)
    (i : nat) (item : Collectible) :
  (forall k, (0 <= rnd k)%Q /\ (rnd k < 1)%Q) ->
  initializeCollectibles clock rnd = Some items ->
  nth_error items i = Some item ->
  c_x item = (rnd (3 * i + 1)%nat * 750 + 25)%Q /\
  c_y item = (rnd (3 * i + 2)%nat * 550 + 25)%Q /\
  (25 <= c_x item)%Q /\ (c_x item < 775)%Q /\
  (25 <= c_y item)%Q /\ (c_y item < 575)%Q.
Proof.
  intros Hrnd Hinit Hn.
  destruct (pushCollectibles_positions _ _ _ _ _ Hinit i item Hn) as [Ex Ey].
  cbn [Nat.add] in Ex, Ey. rewrite Ex, Ey.
  destruct (Hrnd (3 * i + 1)%nat) as [X0 X1]. destruct (Hrnd (3 * i + 2)%nat) as [Y0 Y1].
  destruct (scaled_draw_bounds (rnd (3 * i + 1)%nat) 750 ltac:(lia) X0 X1) as [A B].
  destruct (scaled_draw_bounds (rnd (3 * i + 2)%nat) 550 ltac:(lia) Y0 Y1) as [C D].
  repeat split; assumption.
Qed.

(* ===================================================================== *)
(** ** Keys that cancel *)
(* ===================================================================== *)

(** X9. In a tick that passes the time gate, with the player inside the
    arena: opposite keys held together cancel on their axis (as does holding
    neither), and when both axes cancel the player stays where it is and no
    position is sent. *)
Theorem opposite_keys_cancel (now : Z) (keys : gset string) (st : GameState) :
  gated now st = false ->
  inArena (myPosition st) ->
  let st' := fst (updateGame now keys st) in
  (heldUp keys = heldDown keys -> p_y (myPosition st') = p_y (myPosition st)) /\
  (heldLeft keys = heldRight keys -> p_x (myPosition st') = p_x (myPosition st)) /\
  (heldUp keys = heldDown keys -> heldLeft keys = heldRight keys ->
   myPosition st' = myPosition st /\
   forall x y, ~ In (PositionUpdate x y) (snd (updateGame now keys st))).
Proof.
  intros G [Hx Hy]. cbv zeta.
  assert (V : heldUp keys = heldDown keys ->
              p_y (myPosition (fst (updateGame now keys st))) = p_y (myPosition st)).
  { intros E. rewrite updateGame_position by exact G. simpl. unfold candidate.
    rewrite E. destruct (heldDown keys), (heldLeft keys), (heldRight keys); simpl; lia. }
  assert (Hz : heldLeft keys = heldRight keys ->
               p_x (myPosition (fst (updateGame now keys st))) = p_x (myPosition st)).
  { intros E. rewrite updateGame_position by exact G. simpl. unfold candidate.
    rewrite E. destruct (heldUp keys), (heldDown keys), (heldRight keys); simpl; lia. }
  split; [exact V|]. split; [exact Hz|]. intros E1 E2.
  assert (P : myPosition (fst (updateGame now keys st)) = myPosition st).
  { specialize (V E1). specialize (Hz E2).
    destruct (myPosition (fst (updateGame now keys st))), (myPosition st).
    simpl in *. congruence. }
  split; [exact P|]. intros x y H.
  apply updateGame_pushed_in_arena in H as (_ & Q & N & _). congruence.
Qed.

(* ===================================================================== *)
(** ** More on the rank *)
(* ===================================================================== *)

Lemma filter_length_zero {A : Type} (f : A -> bool) (l : list A) :
  length (List.filter f l) = 0%nat <-> Forall (fun a => f a = false) l.
Proof.
  induction l as [|a l IH]; simpl.
  - split; [constructor|reflexivity].
  - destruct (f a) eqn:Fa; simpl.
    + split; [discriminate|]. intros H. inversion H; congruence.
    + rewrite IH. split; [intros H; constructor; auto|intros H; inversion H; auto].
Qed.

Lemma filter_length_le {A : Type} (f g : A -> bool) (l : list A) :
  Forall (fun a => f a = true -> g a = true) l ->
  (length (List.filter f l) <= length (List.filter g l))%nat.
Proof.
  induction 1 as [|a l Ha _ IH]; simpl; [lia|].
  destruct (f a) eqn:Fa; simpl.
  - rewrite (Ha eq_refl). simpl. lia.
  - destruct (g a); simpl; lia.
Qed.

Lemma filter_app_length {A : Type} (f : A -> bool) (l : list A) (n : nat) :
  length (List.filter f l) =
  (length (List.filter f (firstn n l)) + length (List.filter f (skipn n l)))%nat.
Proof.
  rewrite <- (firstn_skipn n l) at 1. rewrite List.filter_app, length_app. reflexivity.
Qed.

(** Before the first participant that is the local one, none is. *)
Lemma before_first_me (me : string) (l : list RoomPlayer) :
  Forall (fun rp => isMe me rp = false)
         (firstn (Z.to_nat (findIndex (isMe me) l)) l).
Proof.
  destruct (existsb (isMe me) l) eqn:H.
  - destruct (findIndex_first (isMe me) l H) as (k & x & E & _ & _ & First).
    rewrite E, Nat2Z.id. apply List.Forall_forall. intros rp Hin.
    apply In_nth_error in Hin as [j Hj].
    assert (j < k)%nat.
    { assert (j < length (firstn k l))%nat by (apply nth_error_Some; congruence).
      rewrite length_firstn in *. lia. }
    rewrite nth_error_firstn in Hj.
    destruct (Nat.ltb_spec j k); [|lia]. eapply First; eauto.
  - rewrite findIndex_none by exact H. simpl. constructor.
Qed.

Lemma scoreOf_other (me : string) (s : Z) (rp : RoomPlayer) :
  isMe me rp = false -> scoreOf me s rp = rp_score rp.
Proof. unfold isMe, scoreOf. intros ->. reflexivity. Qed.

Lemma myRank_absent (me : string) (localScore : Z) (roomPlayers : list RoomPlayer) :
  existsb (isMe me) roomPlayers = false -> myRank me localScore roomPlayers = 0.
Proof.
  intros H. pose proof (sortBy_perm (scoreOf me localScore) roomPlayers) as P.
  unfold myRank. rewrite findIndex_none; [reflexivity|].
  rewrite sortedPlayers_eq, <- (existsb_perm _ _ _ P). exact H.
Qed.

Lemma myRank_present (me : string) (localScore : Z) (roomPlayers : list RoomPlayer) :
  existsb (isMe me) roomPlayers = true ->
  1 <= myRank me localScore roomPlayers <= Z.of_nat (length roomPlayers).
Proof.
  intros H. pose proof (sortBy_perm (scoreOf me localScore) roomPlayers) as P.
  unfold myRank. rewrite sortedPlayers_eq.
  assert (H' : existsb (isMe me)
                 (sortBy (fun a b => scoreOf me localScore b - scoreOf me localScore a)
                         roomPlayers) = true)
    by (rewrite <- (existsb_perm _ _ _ P); exact H).
  destruct (findIndex_first _ _ H') as (k & rp & E & N & _ & _).
  rewrite E.
  assert (k < length roomPlayers)%nat.
  { rewrite (Permutation_length P). apply nth_error_Some. congruence. }
  lia.
Qed.

(** X10. The rank is 0 exactly when the local participant is not in the
    room list; otherwise it lies between 1 and the number of participants. *)
Theorem rank_is_within_the_room
    (me : string) (localScore : Z) (roomPlayers : list RoomPlayer) :
  (myRank me localScore roomPlayers = 0 <-> existsb (isMe me) roomPlayers = false) /\
  (existsb (isMe me) roomPlayers = true ->
   1 <= myRank me localScore roomPlayers <= Z.of_nat (length roomPlayers)).
Proof.
  split; [|apply myRank_present]. split.
  - intros R. destruct (existsb (isMe me) roomPlayers) eqn:H; [|reflexivity].
    pose proof (myRank_present me localScore roomPlayers H). lia.
  - apply myRank_absent.
Qed.

(** X11. The local player is ranked first (and so counted as winner)
    exactly when it is in the room list, no other participant's mirrored
    score is above the local score, and every participant listed before it
    is strictly below. *)
Theorem first_rank_condition
    (me : string) (localScore : Z) (roomPlayers : list RoomPlayer) :
  myRank me localScore roomPlayers = 1 <->
  existsb (isMe me) roomPlayers = true /\
  Forall (fun rp => isMe me rp = false -> rp_score rp <= localScore) roomPlayers /\
  Forall (fun rp => rp_score rp < localScore)
         (firstn (Z.to_nat (findIndex (isMe me) roomPlayers)) roomPlayers).
Proof.
  destruct (existsb (isMe me) roomPlayers) eqn:H.
  - rewrite (myRank_counts me localScore roomPlayers H).
    set (i := Z.to_nat (findIndex (isMe me) roomPlayers)).
    pose proof (before_first_me me roomPlayers) as Before. fold i in Before.
    set (hi := List.filter (fun rp => scoreOf me localScore rp >? localScore) roomPlayers).
    set (eq := List.filter (fun rp => scoreOf me localScore rp =? localScore)
                           (firstn i roomPlayers)).
    assert (Hi : length hi = 0%nat <->
                 Forall (fun rp => isMe me rp = false -> rp_score rp <= localScore)
                        roomPlayers).
    { unfold hi. rewrite filter_length_zero. rewrite !List.Forall_forall.
      split; intros F rp Hin.
      - intros M. specialize (F rp Hin). simpl in F.
        rewrite scoreOf_other in F by exact M. lia.
      - simpl. destruct (isMe me rp) eqn:M.
        + rewrite isMe_scoreOf by exact M. lia.
        + rewrite scoreOf_other by exact M. specialize (F rp Hin M). lia. }
    split.
    + intros R. assert (length hi = 0%nat /\ length eq = 0%nat) as [Z1 Z2] by lia.
      split; [reflexivity|]. split; [apply Hi, Z1|].
      apply Hi in Z1. unfold eq in Z2. rewrite filter_length_zero in Z2.
      rewrite List.Forall_forall in *. intros rp Hin.
      specialize (Z2 rp Hin). specialize (Before rp Hin). simpl in *.
      rewrite scoreOf_other in Z2 by exact Before.
      assert (Hin' : In rp roomPlayers)
        by (rewrite <- (firstn_skipn i roomPlayers); apply in_or_app; left; exact Hin).
      specialize (Z1 rp Hin' Before). lia.
    + intros (_ & F1 & F2). apply Hi in F1. rewrite F1.
      assert (Z2 : length eq = 0%nat).
      { unfold eq. apply filter_length_zero. rewrite List.Forall_forall in *.
        intros rp Hin. specialize (F2 rp Hin). specialize (Before rp Hin). simpl in *.
        rewrite scoreOf_other by exact Before. lia. }
      rewrite Z2. reflexivity.
  - assert (R : myRank me localScore roomPlayers = 0) by (apply myRank_absent, H).
    rewrite R. split; [discriminate|]. intros [C _]. discriminate C.
Qed.

Lemma filter_ge_split (key : RoomPlayer -> Z) (s : Z) (l : list RoomPlayer) :
  Nat.add (length (List.filter (fun rp => key rp >? s) l))
          (length (List.filter (fun rp => key rp =? s) l)) =
  length (List.filter (fun rp => s <=? key rp) l).
Proof.
  induction l as [|rp l IH]; simpl; [reflexivity|].
  destruct (Z.gtb_spec (key rp) s), (Z.eqb_spec (key rp) s), (Z.leb_spec s (key rp));
    simpl; lia.
Qed.

(** The rank, counted separately before and from the local participant. *)
Lemma myRank_split (me : string) (s : Z) (l : list RoomPlayer) :
  existsb (isMe me) l = true ->
  let i := Z.to_nat (findIndex (isMe me) l) in
  myRank me s l =
  1 + Z.of_nat (length (List.filter (fun rp => s <=? scoreOf me s rp) (firstn i l)))
    + Z.of_nat (length (List.filter (fun rp => scoreOf me s rp >? s) (skipn i l))).
Proof.
  intros H i. rewrite (myRank_counts me s l H). fold i.
  rewrite (filter_app_length (fun rp => scoreOf me s rp >? s) l i).
  rewrite <- (filter_ge_split (scoreOf me s) s (firstn i l)). lia.
Qed.

(** X12. A higher local score never gives a worse rank: with the room list
    unchanged, raising the local score leaves the rank or improves it. *)
Theorem rank_improves_with_local_score
    (me : string) (s s' : Z) (roomPlayers : list RoomPlayer) :
  existsb (isMe me) roomPlayers = true ->
  s <= s' ->
  myRank me s' roomPlayers <= myRank me s roomPlayers.
Proof.
  intros H Hs.
  rewrite (myRank_split me s roomPlayers H), (myRank_split me s' roomPlayers H).
  cbv zeta. set (i := Z.to_nat (findIndex (isMe me) roomPlayers)).
  pose proof (before_first_me me roomPlayers) as Before. fold i in Before.
  assert (A : Nat.le
                (length (List.filter (fun rp => s' <=? scoreOf me s' rp) (firstn i roomPlayers)))
                (length (List.filter (fun rp => s <=? scoreOf me s rp) (firstn i roomPlayers)))).
  { apply filter_length_le. eapply List.Forall_impl; [|exact Before].
    intros rp M. simpl in M. rewrite !scoreOf_other by exact M.
    rewrite !Z.leb_le. lia. }
  assert (B : Nat.le
                (length (List.filter (fun rp => scoreOf me s' rp >? s') (skipn i roomPlayers)))
                (length (List.filter (fun rp => scoreOf me s rp >? s) (skipn i roomPlayers)))).
  { apply filter_length_le. apply List.Forall_forall. intros rp _.
    destruct (isMe me rp) eqn:M.
    - rewrite !isMe_scoreOf by exact M. rewrite !Z.gtb_gt. lia.
    - rewrite !scoreOf_other by exact M. rewrite !Z.gtb_gt. lia. }
  lia.
Qed.

Lemma sameButMirrorOf_isMe (me : string) (a b : RoomPlayer) :
  sameButMirrorOf me a b -> isMe me a = isMe me b.
Proof. unfold sameButMirrorOf, isMe. intros [-> _]. reflexivity. Qed.

Lemma sameButMirrorOf_scoreOf (me : string) (s : Z) (a b : RoomPlayer) :
  sameButMirrorOf me a b -> scoreOf me s a = scoreOf me s b.
Proof.
  unfold sameButMirrorOf, scoreOf. intros [E S]. rewrite <- E.
  destruct (String.eqb_spec (rp_player_id a) me); [reflexivity|auto].
Qed.

Lemma Forall2_filter_length {A : Type} (R : A -> A -> Prop) (f g : A -> bool)
    (l l' : list A) :
  (forall a b, R a b -> f a = g b) ->
  Forall2 R l l' -> length (List.filter f l) = length (List.filter g l').
Proof.
  intros Hfg. induction 1 as [|a b l l' Hab _ IH]; simpl; [reflexivity|].
  rewrite (Hfg a b Hab). destruct (g b); simpl; congruence.
Qed.

Lemma Forall2_findIndexFrom {A : Type} (R : A -> A -> Prop) (p : A -> bool)
    (l l' : list A) (k : Z) :
  (forall a b, R a b -> p a = p b) ->
  Forall2 R l l' -> findIndexFrom p l k = findIndexFrom p l' k.
Proof.
  intros Hp H. revert k. induction H as [|a b l l' Hab _ IH]; intros k; simpl;
    [reflexivity|].
  rewrite (Hp a b Hab). destruct (p b); auto.
Qed.

Lemma Forall2_existsb {A : Type} (R : A -> A -> Prop) (p : A -> bool) (l l' : list A) :
  (forall a b, R a b -> p a = p b) ->
  Forall2 R l l' -> existsb p l = existsb p l'.
Proof.
  intros Hp. induction 1 as [|a b l l' Hab _ IH]; simpl; [reflexivity|].
  rewrite (Hp a b Hab), IH. reflexivity.
Qed.

(** X13. The rank does not depend on what the room list mirrors of the
    local participant: two room lists with the same participants in the
    same order and the same scores for everyone else give the same rank,
    whatever score they hold for the local participant. *)
Theorem rank_ignores_own_mirror
    (me : string) (localScore : Z) (l l' : list RoomPlayer) :
  Forall2 (sameButMirrorOf me) l l' ->
  myRank me localScore l = myRank me localScore l'.
Proof.
  intros F.
  pose proof (Forall2_existsb _ (isMe me) l l' (sameButMirrorOf_isMe me) F) as Ex.
  pose proof (Forall2_findIndexFrom _ (isMe me) l l' 0 (sameButMirrorOf_isMe me) F) as Ix.
  fold (findIndex (isMe me) l) in Ix. fold (findIndex (isMe me) l') in Ix.
  destruct (existsb (isMe me) l) eqn:H.
  - rewrite (myRank_counts me localScore l H).
    rewrite (myRank_counts me localScore l') by congruence.
    rewrite <- Ix.
    rewrite (Forall2_filter_length (sameButMirrorOf me)
               (fun rp => scoreOf me localScore rp >? localScore)
               (fun rp => scoreOf me localScore rp >? localScore) l l'); [|
      intros a b Hab; rewrite (sameButMirrorOf_scoreOf me localScore a b Hab); reflexivity
      | exact F].
    rewrite (Forall2_filter_length (sameButMirrorOf me)
               (fun rp => scoreOf me localScore rp =? localScore)
               (fun rp => scoreOf me localScore rp =? localScore)
               (firstn (Z.to_nat (findIndex (isMe me) l)) l)
               (firstn (Z.to_nat (findIndex (isMe me) l)) l')); [reflexivity|
      intros a b Hab; rewrite (sameButMirrorOf_scoreOf me localScore a b Hab); reflexivity
      | apply Forall2_take, F].
  - rewrite (myRank_absent me localScore l H).
    rewrite (myRank_absent me localScore l') by congruence. reflexivity.
Qed.

(* ===================================================================== *)
(** ** Properties of the room *)
(* ===================================================================== *)

(** X14. The Start Game button and [startGame] agree: on a loaded room
    [startGame] writes the status change exactly when [canStart] enables the
    button, and before the room has loaded it writes nothing. It can only
    start for the host, with at least two participants, all of them ready
    except possibly the host. *)
Theorem startGame_agrees_with_canStart
    (room : GameRoom) (playerId : string) (roomPlayers : list RoomPlayer)
    (roomId nowIso : string) :
  startGame (Some room) playerId roomPlayers roomId nowIso =
    (if canStart room playerId roomPlayers then [StartRoom roomId nowIso] else []) /\
  startGame None playerId roomPlayers roomId nowIso = [] /\
  (canStart room playerId roomPlayers = true ->
   gr_host_player_id room = playerId /\
   (2 <= length roomPlayers)%nat /\
   forall rp, In rp roomPlayers -> rp_player_id rp <> playerId -> rp_is_ready rp = true).
Proof.
  unfold startGame, canStart, allReady.
  set (ready := forallb _ roomPlayers).
  destruct (String.eqb_spec (gr_host_player_id room) playerId) as [Eh|Eh]; simpl.
  - destruct (Z.ltb_spec (Z.of_nat (length roomPlayers)) 2) as [L|L];
      rewrite Z.geb_leb; destruct (Z.leb_spec 2 (Z.of_nat (length roomPlayers))); try lia;
      destruct ready eqn:R; simpl; (split; [reflexivity|]); (split; [reflexivity|]);
      intros C; try discriminate C.
    split; [exact Eh|]. split; [lia|]. intros rp Hin Hne.
    unfold ready in R. rewrite forallb_forall in R. specialize (R rp Hin).
    apply orb_prop in R as [R|R]; [exact R|]. apply String.eqb_eq in R. contradiction.
  - split; [reflexivity|]. split; [reflexivity|]. intros C. discriminate C.
Qed.

Lemma publish_ownRow (rp : RoomPlayer) (log : list (Z * Event)) :
  (forall t x y, In (t, PositionUpdate x y) log -> inArena {| p_x := x; p_y := y |}) ->
  Forall (ownRowWrite (rp_id rp))
         (flat_map (fun te => publish (Some rp) (snd te)) log).
Proof.
  induction log as [|[t e] log IH]; intros H; simpl; [constructor|].
  assert (IH' : Forall (ownRowWrite (rp_id rp))
                       (flat_map (fun te => publish (Some rp) (snd te)) log))
    by (apply IH; intros; eapply H; right; eauto).
  destruct e as [x y|s]; simpl; constructor; auto; simpl.
  - split; [reflexivity|]. eapply H. left. reflexivity.
  - reflexivity.
Qed.

Lemma lastScoreWritten_publish (rp : RoomPlayer) (log : list (Z * Event)) (s : Z) :
  lastScoreWritten (flat_map (fun te => publish (Some rp) (snd te)) log) s =
  lastScorePushed log s.
Proof.
  revert s. induction log as [|[t [x y|s']] log IH]; intros s; simpl; auto.
Qed.

(** X15. What a run of frames writes to room_players through the callbacks
    of the room: with the participant record known, every write goes to the
    local participant's own row, every position written lies in the arena,
    and the score last written is the current score; while the record is
    not known, nothing is written at all. *)
Theorem run_writes_only_own_row
    (frames : list Frame) (st : GameState) (rp : RoomPlayer) :
  Forall (ownRowWrite (rp_id rp)) (publishRun (Some rp) frames st) /\
  lastScoreWritten (publishRun (Some rp) frames st) (myScore st) =
    myScore (fst (runFrames frames st)) /\
  publishRun None frames st = [].
Proof.
  unfold publishRun. split; [|split].
  - apply publish_ownRow. intros t x y. apply runFrames_pushed_in_arena.
  - rewrite lastScoreWritten_publish. apply runFrames_lastScorePushed.
  - induction (snd (runFrames frames st)) as [|[t [x y|s]] log IH]; simpl; auto.
Qed.

(* ===================================================================== *)
(** ** Properties of the text inputs *)
(* ===================================================================== *)

Lemma trimStart_suffix (s : JsString) : exists pre, s = pre ++ trimStart s.
Proof.
  induction s as [|c s [pre IH]]; simpl.
  - exists []. reflexivity.
  - destruct (isWhiteSpace c).
    + exists (c :: pre). simpl. congruence.
    + exists []. reflexivity.
Qed.

Lemma trimStart_head (s : JsString) :
  match trimStart s with [] => True | c :: _ => isWhiteSpace c = false end.
Proof.
  induction s as [|c s IH]; simpl; [exact I|].
  destruct (isWhiteSpace c) eqn:W; [exact IH|exact W].
Qed.

Lemma trimStart_length (s : JsString) : (length (trimStart s) <= length s)%nat.
Proof.
  destruct (trimStart_suffix s) as [pre E]. rewrite E at 2. rewrite length_app. lia.
Qed.

Lemma trimStart_fixed (s : JsString) :
  match s with [] => True | c :: _ => isWhiteSpace c = false end -> trimStart s = s.
Proof. destruct s as [|c s]; simpl; [reflexivity|]. intros ->. reflexivity. Qed.

Lemma trim_noOuterSpace (s : JsString) : noOuterSpace (trim s).
Proof.
  unfold noOuterSpace, trim, trimEnd. set (t := trimStart s).
  pose proof (trimStart_head s) as Ht. fold t in Ht.
  destruct (trimStart_suffix (rev t)) as [pre E].
  split.
  - assert (T : t = rev (trimStart (rev t)) ++ rev pre).
    { rewrite <- (rev_involutive t), E at 1. rewrite rev_app_distr. reflexivity. }
    destruct (rev (trimStart (rev t))) as [|c r] eqn:R; [exact I|].
    rewrite T in Ht. simpl in Ht. exact Ht.
  - rewrite rev_involutive. apply trimStart_head.
Qed.

Lemma trim_length (s : JsString) : (length (trim s) <= length s)%nat.
Proof.
  unfold trim, trimEnd. rewrite length_rev.
  pose proof (trimStart_length (rev (trimStart s))) as A.
  rewrite length_rev in A. pose proof (trimStart_length s). lia.
Qed.

Lemma trim_fixed (s : JsString) : noOuterSpace s -> trim s = s.
Proof.
  intros [H1 H2]. unfold trim, trimEnd. rewrite (trimStart_fixed s H1).
  rewrite (trimStart_fixed (rev s) H2). apply rev_involutive.
Qed.

(** X16. [Login]'s submit handler calls [onLogin] at most once, and only
    with the trimmed user name: at least 3 code units long, not longer than
    what was typed, without white space at either end. After a call the
    loading flag is off, and the error text is empty exactly when the login
    went through. When the trimmed name is shorter than 3 there is no call:
    only the error text changes. *)
Theorem login_submits_only_trimmed_names
    (onLogin : JsString -> bool) (st : LoginState) :
  let st' := fst (loginSubmit onLogin st) in
  let calls := snd (loginSubmit onLogin st) in
  (calls = [] \/ calls = [trim (lg_username st)]) /\
  (forall name, In name calls ->
     (3 <= length name <= length (lg_username st))%nat /\ noOuterSpace name /\
     lg_loading st' = false /\
     (lg_error st' = "" <-> onLogin name = true)) /\
  ((length (trim (lg_username st)) < 3)%nat ->
     calls = [] /\ lg_username st' = lg_username st /\
     lg_loading st' = lg_loading st /\
     lg_error st' = "Username must be at least 3 characters") /\
  lg_username st' = lg_username st.
Proof.
  cbv zeta. unfold loginSubmit.
  pose proof (trim_length (lg_username st)) as L.
  pose proof (trim_noOuterSpace (lg_username st)) as O.
  destruct (Nat.ltb_spec (length (trim (lg_username st))) 3) as [Short|Long].
  - simpl. split; [left; reflexivity|]. split; [intros name []|]. split; auto.
  - destruct (onLogin (trim (lg_username st))) eqn:R; simpl.
    + split; [right; reflexivity|]. split; [|split; [intros; lia|reflexivity]].
      intros name [<-|[]]. rewrite R.
      split; [lia|]. split; [exact O|]. split; [reflexivity|].
      split; reflexivity.
    + split; [right; reflexivity|]. split; [|split; [intros; lia|reflexivity]].
      intros name [<-|[]]. rewrite R.
      split; [lia|]. split; [exact O|]. split; [reflexivity|].
      split; intros C; discriminate C.
Qed.

(** X17. [sendMessage] never inserts an empty or padded chat message: it
    inserts at most one row, for this room and player, whose text is the
    trimmed input, not empty and without white space at either end, and then
    clears the input. An input of white space only inserts nothing and is
    left as it is. *)
Theorem chat_messages_are_trimmed_and_not_empty
    (roomId playerId : string) (messageInput : JsString) :
  let input' := fst (sendMessage roomId playerId messageInput) in
  let rows := snd (sendMessage roomId playerId messageInput) in
  (trim messageInput = [] -> rows = [] /\ input' = messageInput) /\
  (trim messageInput <> [] ->
     rows = [ {| ci_room_id := roomId; ci_player_id := playerId;
                 ci_message := trim messageInput |} ] /\ input' = []) /\
  (forall row, In row rows ->
     ci_message row <> [] /\ noOuterSpace (ci_message row) /\
     (length (ci_message row) <= length messageInput)%nat /\
     trim (ci_message row) = ci_message row).
Proof.
  cbv zeta. unfold sendMessage.
  pose proof (trim_length messageInput) as L.
  pose proof (trim_noOuterSpace messageInput) as O.
  destruct (trim messageInput) as [|c r] eqn:T; simpl.
  - split; [auto|]. split; [intros C; contradiction|]. intros row [].
  - split; [discriminate|]. split; [auto|].
    intros row [<-|[]]. simpl. split; [discriminate|]. split; [exact O|].
    split; [exact L|]. apply trim_fixed, O.
Qed.

(** X18. [createRoom] does something exactly when the trimmed room name has
    at least 3 code units, which is when the Create button is enabled
    (unless a creation is under way). The row it inserts has the trimmed
    name, the player as host and 0 current players. When the insert
    succeeds the dialog closes, the name is cleared and the player joins the
    new room; when it fails the dialog and the name stay and nobody joins.
    Either way the loading flag is off. *)
Theorem createRoom_guard_and_outcome
    (insert : RoomInsert -> option string) (playerId : string) (st : LobbyState) :
  let '(st', rows, joins) := createRoom insert playerId st in
  let row := {| ri_name := trim (lb_roomName st); ri_host_player_id := playerId;
                ri_game_type := lb_gameType st; ri_current_players := 0 |} in
  ((length (trim (lb_roomName st)) < 3)%nat ->
     st' = st /\ rows = [] /\ joins = [] /\ createDisabled st = true) /\
  ((3 <= length (trim (lb_roomName st)))%nat ->
     rows = [row] /\ noOuterSpace (ri_name row) /\ lb_loading st' = false /\
     createDisabled st = lb_loading st /\
     (forall id, insert row = Some id ->
        joins = [id] /\ lb_showCreateModal st' = false /\ lb_roomName st' = []) /\
     (insert row = None ->
        joins = [] /\ lb_showCreateModal st' = lb_showCreateModal st /\
        lb_roomName st' = lb_roomName st)).
Proof.
  unfold createRoom, createDisabled.
  pose proof (trim_noOuterSpace (lb_roomName st)) as O.
  destruct (Nat.ltb_spec (length (trim (lb_roomName st))) 3) as [Short|Long].
  - split; [|intros; lia]. intros _. rewrite orb_true_r. auto.
  - destruct (insert _) as [id|] eqn:I; simpl; (split; [intros; lia|]); intros _;
      rewrite orb_false_r;
      (split; [reflexivity|]); (split; [exact O|]); (split; [reflexivity|]);
      (split; [reflexivity|]); split.
    + intros id' [= <-]. auto.
    + intros C. discriminate C.
    + intros id' C. discriminate C.
    + auto.
Qed.

(* ===================================================================== *)
(** ** Properties of the player hook and the shell *)
(* ===================================================================== *)

(** X19. When the page has loaded and the mount effect has run, the app is
    never left on the loading screen and never inside a room. If a player
    is set, it is the row the store returned for the id kept in
    [localStorage], and that id is still kept; if none is set, no usable id
    is kept any more: an id that the store does not know, or could not look
    up, has been removed. *)
Theorem page_load_settles
    (db : string -> Lookup) (nowIso : string) (storage : gmap string string) :
  let st := fst (mountPlayer db nowIso (pageLoad storage)) in
  ap_loading st = false /\
  ap_currentRoomId st = None /\
  (forall p, ap_player st = Some p ->
     exists id, storage !! "playerId" = Some id /\ id <> "" /\
                db id = LookupRow p /\ ap_storage st = storage /\
                screen st = LobbyScreen p) /\
  (ap_player st = None ->
     screen st = LoginScreen /\
     (ap_storage st !! "playerId" = None \/ ap_storage st !! "playerId" = Some "") /\
     snd (mountPlayer db nowIso (pageLoad (ap_storage st))) = []).
Proof.
  cbv zeta.
  assert (Idle : forall sto, (sto !! "playerId" = None \/ sto !! "playerId" = Some "") ->
                 mountPlayer db nowIso (pageLoad sto) = (setLoadingDone (pageLoad sto), [])).
  { intros sto [N|N]; unfold mountPlayer, pageLoad; simpl; rewrite N; reflexivity. }
  destruct (storage !! "playerId") as [id|] eqn:S.
  - destruct (String.eqb_spec id "") as [E|E].
    + subst id. rewrite (Idle storage) by auto. simpl.
      split; [reflexivity|]. split; [reflexivity|].
      split; [intros p C; discriminate C|]. intros _.
      split; [reflexivity|]. split; [auto|]. rewrite (Idle storage) by auto. reflexivity.
    + assert (M : mountPlayer db nowIso (pageLoad storage) =
                  loadPlayer db nowIso id (pageLoad storage)).
      { unfold mountPlayer, pageLoad. simpl. rewrite S.
        destruct (String.eqb_spec id ""); [contradiction|reflexivity]. }
      rewrite M. unfold loadPlayer.
      assert (Gone : delete "playerId" storage !! "playerId" = None)
        by apply lookup_delete_eq.
      destruct (db id) as [| |p] eqn:D; simpl.
      * split; [reflexivity|]. split; [reflexivity|].
        split; [intros p C; discriminate C|]. intros _.
        split; [reflexivity|]. split; [auto|]. rewrite Idle by auto. reflexivity.
      * split; [reflexivity|]. split; [reflexivity|].
        split; [intros p C; discriminate C|]. intros _.
        split; [reflexivity|]. split; [auto|]. rewrite Idle by auto. reflexivity.
      * split; [reflexivity|]. split; [reflexivity|]. split.
        -- intros p' [= <-]. exists id. auto.
        -- intros C. discriminate C.
  - rewrite (Idle storage) by auto. simpl.
    split; [reflexivity|]. split; [reflexivity|].
    split; [intros p C; discriminate C|]. intros _.
    split; [reflexivity|]. split; [auto|]. rewrite (Idle storage) by auto. reflexivity.
Qed.

(** X20. A player that [createPlayer] has created is found again after a
    reload: the id of the new row is kept in [localStorage], the mount
    effect of the next page load looks up exactly that id, and with the row
    it gets back the app shows the lobby of that player. When the insert
    fails, the promise rejects and nothing in the app changes. *)
Theorem created_player_survives_reload
    (r : Q) (insert : JsString -> option string -> option Player)
    (username : JsString) (st : AppState) (db : string -> Lookup) (nowIso : string) :
  let '(st1, ops, resolved) := createPlayer r insert username st in
  (forall data, insert username (pickColor r) = Some data ->
     resolved = true /\ ap_player st1 = Some data /\
     ap_storage st1 !! "playerId" = Some (pl_id data) /\
     (pl_id data <> "" ->
      forall p', db (pl_id data) = LookupRow p' ->
        let '(st2, ops2) := mountPlayer db nowIso (pageLoad (ap_storage st1)) in
        ops2 = [SelectPlayer (pl_id data); TouchLastSeen (pl_id data) nowIso] /\
        ap_player st2 = Some p' /\ screen st2 = LobbyScreen p')) /\
  (insert username (pickColor r) = None -> resolved = false /\ st1 = st).
Proof.
  unfold createPlayer. destruct (insert username (pickColor r)) as [data|] eqn:I.
  - split; [|discriminate]. intros data' [= <-].
    split; [reflexivity|]. split; [reflexivity|]. simpl ap_storage.
    split; [apply lookup_insert_eq|]. intros Hid p' D.
    unfold mountPlayer, pageLoad. simpl ap_storage. rewrite lookup_insert_eq.
    destruct (String.eqb_spec (pl_id data) ""); [contradiction|].
    unfold loadPlayer. rewrite D. simpl. auto.
  - split; [discriminate|]. auto.
Qed.

(** X21. Logging out always leads to the login screen: whatever room was
    open it is closed, the player is unset and the stored id is removed
    (nothing else in [localStorage] is touched), so a reload afterwards asks
    the store nothing and shows the login screen again. *)
Theorem logout_returns_to_login
    (st : AppState) (db : string -> Lookup) (nowIso : string) :
  let st' := handleLogout st in
  ap_player st' = None /\ ap_currentRoomId st' = None /\
  ap_storage st' !! "playerId" = None /\
  (forall k, k <> "playerId" -> ap_storage st' !! k = ap_storage st !! k) /\
  (ap_loading st = false -> screen st' = LoginScreen) /\
  mountPlayer db nowIso (pageLoad (ap_storage st')) =
    (setLoadingDone (pageLoad (ap_storage st')), []) /\
  screen (fst (mountPlayer db nowIso (pageLoad (ap_storage st')))) = LoginScreen.
Proof.
  cbv zeta. unfold handleLogout, logout. simpl.
  assert (D : delete "playerId" (ap_storage st) !! "playerId" = None)
    by apply lookup_delete_eq.
  split; [reflexivity|]. split; [reflexivity|]. split; [exact D|]. split.
  - intros k Hk. apply lookup_delete_ne. congruence.
  - split.
    + unfold screen. simpl. intros ->. reflexivity.
    + unfold mountPlayer, pageLoad. simpl ap_storage. rewrite D. auto.
Qed.

Lemma pickColor_index (r : Q) (i : nat) :
  (0 <= r)%Q -> (r < 1)%Q -> (i < 6)%nat ->
  (Qfloor (r * inject_Z 6) = Z.of_nat i <->
   (inject_Z (Z.of_nat i) / 6 <= r)%Q /\ (r < inject_Z (Z.of_nat i + 1) / 6)%Q).
Proof.
  destruct r as [n d]. intros H0 H1 Hi. rewrite Qfloor_six.
  unfold Qle, Qlt, Qdiv, Qmult, Qinv, inject_Z in *. simpl in *.
  rewrite ?Z.mul_1_r in *.
  assert (Hd : 0 < Z.pos d) by lia.
  pose proof (Z.div_mod (n * 6) (Z.pos d) ltac:(lia)) as Hdm.
  pose proof (Z.mod_pos_bound (n * 6) (Z.pos d) Hd) as Hmb.
  set (q := (n * 6) / Z.pos d) in *. set (m := (n * 6) mod Z.pos d) in *.
  split; intros H; nia.
Qed.

(** The draws that give each colour, with the product taken exactly. *)
Lemma pickColor_intervals (r : Q) :
  (0 <= r)%Q -> (r < 1)%Q ->
  (exists c, pickColor r = Some c /\ In c colors) /\
  (forall i c, nth_error colors i = Some c ->
     (pickColor r = Some c <->
      (inject_Z (Z.of_nat i) / 6 <= r)%Q /\ (r < inject_Z (Z.of_nat i + 1) / 6)%Q)).
Proof.
  intros H0 H1.
  assert (B : 0 <= Qfloor (r * inject_Z 6) < 6).
  { destruct r as [n d]. rewrite Qfloor_six. unfold Qle, Qlt in *. simpl in *.
    rewrite ?Z.mul_1_r in *.
    pose proof (Z.div_mod (n * 6) (Z.pos d) ltac:(lia)) as Hdm.
    pose proof (Z.mod_pos_bound (n * 6) (Z.pos d) ltac:(lia)) as Hmb. nia. }
  unfold pickColor. change (Z.of_nat (length colors)) with 6.
  destruct (Z.ltb_spec (Qfloor (r * inject_Z 6)) 0); [lia|].
  split.
  - destruct (nth_error colors (Z.to_nat (Qfloor (r * inject_Z 6)))) as [c|] eqn:N.
    + exists c. split; [reflexivity|]. eapply nth_error_In, N.
    + apply nth_error_None in N. change (length colors) with 6%nat in N. lia.
  - intros i c Hi.
    assert (Li : (i < 6)%nat)
      by (change 6%nat with (length colors); apply nth_error_Some; congruence).
    rewrite <- (pickColor_index r i H0 H1 Li). split.
    + intros Hc.
      assert (Z.to_nat (Qfloor (r * inject_Z 6)) = i); [|lia].
      assert (ND : List.NoDup colors)
        by (repeat (apply List.NoDup_cons; [simpl; intuition discriminate|]);
            apply List.NoDup_nil).
      eapply (proj1 (NoDup_nth_error colors) ND); [|congruence].
      apply nth_error_Some. congruence.
    + intros ->. rewrite Nat2Z.id. exact Hi.
Qed.

Lemma below_drawMargin (a : Q) : (a - drawMargin < a)%Q.
Proof.
  rewrite <- (Qplus_0_r a) at 2. unfold Qminus. apply Qplus_lt_r. reflexivity.
Qed.

(** X22. With [Math.random()] in the unit interval, [createPlayer] always
    gives the new player one of the six palette colours, each for a sixth of
    the interval: a draw from i/6 up to (i + 1)/6 gives colour [i] and no
    other draw does, where a draw within [drawMargin] below a multiple of
    1/6 gives one of the two colours that meet there. *)
Theorem avatar_colour_is_uniform_over_palette (r : Q) :
  (0 <= r)%Q -> (r < 1)%Q ->
  (exists c, pickColor r = Some c /\ In c colors) /\
  (forall i c, nth_error colors i = Some c ->
     ((inject_Z (Z.of_nat i) / 6 <= r)%Q ->
      (r < inject_Z (Z.of_nat i + 1) / 6 - drawMargin)%Q ->
      pickColor r = Some c) /\
     (pickColor r = Some c ->
      (inject_Z (Z.of_nat i) / 6 - drawMargin < r)%Q /\
      (r < inject_Z (Z.of_nat i + 1) / 6)%Q)).
Proof.
  intros H0 H1. destruct (pickColor_intervals r H0 H1) as [Hex Hiff].
  split; [exact Hex|].
  intros i c Hi. specialize (Hiff i c Hi). split.
  - intros L U. apply Hiff. split; [exact L|].
    eapply Qlt_trans; [exact U|apply below_drawMargin].
  - intros Hc. apply Hiff in Hc as [L U]. split; [|exact U].
    eapply Qlt_le_trans; [apply below_drawMargin|exact L].
Qed.

(** X23. Submitting the login form end to end: with a name of at least 3
    code units after trimming, the app creates the player under the trimmed
    name; if the store accepts it the app shows the lobby of the new player
    and keeps its id, and if the store rejects it the app state is untouched
    and the form shows that the name is taken. With a shorter name nothing
    is asked of the store. *)
Theorem login_form_end_to_end
    (r : Q) (insert : JsString -> option string -> option Player)
    (lg : LoginState) (st : AppState) :
  let '(st', lg') := submitLogin r insert lg st in
  let name := trim (lg_username lg) in
  ((length name < 3)%nat ->
     st' = st /\ lg_error lg' = "Username must be at least 3 characters") /\
  ((3 <= length name)%nat ->
     (forall data, insert name (pickColor r) = Some data ->
        ap_player st' = Some data /\
        ap_storage st' !! "playerId" = Some (pl_id data) /\
        lg_error lg' = "" /\ lg_loading lg' = false /\
        (ap_loading st = false -> ap_currentRoomId st = None ->
         screen st' = LobbyScreen data)) /\
     (insert name (pickColor r) = None ->
        st' = st /\ lg_loading lg' = false /\
        lg_error lg' = "Username already taken. Please choose another.")).
Proof.
  unfold submitLogin, loginSubmit.
  destruct (Nat.ltb_spec (length (trim (lg_username lg))) 3) as [Short|Long].
  - simpl. split; [auto|intros; lia].
  - unfold createPlayer.
    destruct (insert (trim (lg_username lg)) (pickColor r)) as [data|] eqn:I; simpl;
      rewrite ?I; simpl; (split; [intros; lia|]); intros _; split.
    + intros data' [= <-]. split; [reflexivity|].
      split; [apply lookup_insert_eq|]. split; [reflexivity|]. split; [reflexivity|].
      intros L R. unfold screen. simpl. rewrite L, R. reflexivity.
    + discriminate.
    + intros data C. discriminate C.
    + auto.
Qed.

(* ===================================================================== *)
(** ** Properties of the renderer, participant part *)
(* ===================================================================== *)

(** X24. The renderer draws one disc per participant, in room order. The
    local participant is drawn at the local position, outlined, whatever
    position the room list mirrors for it; every other participant is drawn
    at its mirrored position, not outlined. A participant whose profile has
    not loaded is drawn in the default colour with the initial "P" and no
    name. So the picture does not change when only the mirror of the local
    participant changes. *)
Theorem local_player_is_drawn_at_local_position
    (toUpperCase : JsString -> JsString) (me : string) (myPos : Position)
    (l l' : list (RoomPlayer * option Profile)) :
  length (renderPlayers toUpperCase me myPos l) = length l /\
  (forall i rp profile, nth_error l i = Some (rp, profile) ->
     exists d, nth_error (renderPlayers toUpperCase me myPos l) i = Some d /\
       (rp_player_id rp = me ->
          dp_x d = p_x myPos /\ dp_y d = p_y myPos /\ dp_outlined d = true) /\
       (rp_player_id rp <> me ->
          dp_x d = rp_position_x rp /\ dp_y d = rp_position_y rp /\
          dp_outlined d = false) /\
       (profile = None ->
          dp_fill d = "#3B82F6" /\ dp_initial d = [80%N] /\ dp_name d = [])) /\
  (Forall2 (sameButOwnMirror me) l l' ->
   renderPlayers toUpperCase me myPos l = renderPlayers toUpperCase me myPos l').
Proof.
  unfold renderPlayers. split; [apply length_map|]. split.
  - intros i rp profile Hn. exists (drawPlayer toUpperCase me myPos (rp, profile)).
    split; [rewrite nth_error_map, Hn; reflexivity|]. simpl.
    destruct (String.eqb_spec (rp_player_id rp) me) as [E|E].
    + split; [auto|]. split; [intros C; contradiction|]. intros ->. auto.
    + split; [intros C; contradiction|]. split; [auto|]. intros ->. auto.
  - induction 1 as [|[a pa] [b pb] l l' (Hp & Hid & Hpos) _ IH]; simpl; [reflexivity|].
    simpl in Hp, Hid, Hpos. subst pb. rewrite IH. f_equal.
    rewrite <- Hid. destruct (String.eqb_spec (rp_player_id a) me) as [E|E].
    + reflexivity.
    + destruct (Hpos E) as [-> ->]. reflexivity.
Qed.

(* ===================================================================== *)
(** ** Every item can be collected *)
(* ===================================================================== *)

Lemma runFrames_app (f1 f2 : list Frame) (st : GameState) :
  fst (runFrames (f1 ++ f2) st) = fst (runFrames f2 (fst (runFrames f1 st))).
Proof.
  revert st. induction f1 as [|[now keys] f1 IH]; intros st; simpl; [reflexivity|].
  destruct (updateGame now keys st) as [st1 ev]. specialize (IH st1).
  destruct (runFrames (f1 ++ f2) st1) as [sa la].
  destruct (runFrames f1 st1) as [sb lb]. simpl in *. exact IH.
Qed.

Lemma updateGame_last_le (now : Z) (keys : gset string) (st : GameState) :
  lastUpdateTime st <= now ->
  lastUpdateTime (fst (updateGame now keys st)) <= now.
Proof.
  intros H. destruct (updateGame_push now keys st) as [[_ E]|(_ & E & _)]; lia.
Qed.

(** Holding keys that move by (sx, sy) per tick for [n] frames, 100 ms
    apart, along a stretch that lies in the arena. *)
Lemma walk (keys : gset string) (sx sy : Z) :
  (forall p, fst (candidate keys p) = p_x p + sx /\ snd (candidate keys p) = p_y p + sy) ->
  forall (n : nat) (t : Z) (st : GameState),
    lastUpdateTime st <= t - 16 ->
    (forall k, 0 <= k <= Z.of_nat n ->
       20 <= p_x (myPosition st) + k * sx <= 780 /\
       20 <= p_y (myPosition st) + k * sy <= 580) ->
    myPosition (fst (runFrames (holdKeys keys t 100 n) st)) =
      {| p_x := p_x (myPosition st) + Z.of_nat n * sx;
         p_y := p_y (myPosition st) + Z.of_nat n * sy |} /\
    lastUpdateTime (fst (runFrames (holdKeys keys t 100 n) st)) <= t + 100 * Z.of_nat n - 16.
Proof.
  intros Hc. induction n as [|n IH]; intros t st Hl Hb.
  - simpl. split; [destruct (myPosition st); simpl; f_equal; lia|lia].
  - cbn [holdKeys runFrames].
    assert (G : gated t st = false) by (unfold gated; apply Z.ltb_ge; lia).
    pose proof (updateGame_position t keys st G) as P.
    pose proof (updateGame_last_le t keys st ltac:(lia)) as L.
    destruct (Hc (myPosition st)) as [Cx Cy]. rewrite Cx, Cy in P.
    destruct (Hb 1 ltac:(lia)) as [Bx By].
    rewrite !Z.max_r, !Z.min_r in P by lia.
    destruct (updateGame t keys st) as [st1 ev]. simpl in P, L.
    destruct (IH (t + 100) st1 ltac:(lia)) as [P2 L2].
    { intros k Hk. rewrite P. simpl.
      destruct (Hb (k + 1) ltac:(lia)) as [Bx' By']. split; lia. }
    destruct (runFrames (holdKeys keys (t + 100) 100 n) st1) as [st2 log].
    simpl in *. rewrite P2, P. simpl. split; [f_equal; lia|lia].
Qed.

Lemma candidate_steps :
  (forall p, fst (candidate {["d"]} p) = p_x p + 5 /\ snd (candidate {["d"]} p) = p_y p + 0) /\
  (forall p, fst (candidate {["a"]} p) = p_x p + -5 /\ snd (candidate {["a"]} p) = p_y p + 0) /\
  (forall p, fst (candidate {["s"]} p) = p_x p + 0 /\ snd (candidate {["s"]} p) = p_y p + 5) /\
  (forall p, fst (candidate {["w"]} p) = p_x p + 0 /\ snd (candidate {["w"]} p) = p_y p + -5) /\
  (forall p, fst (candidate ∅ p) = p_x p + 0 /\ snd (candidate ∅ p) = p_y p + 0).
Proof.
  assert (K : forall keys u d l r,
            heldUp keys = u -> heldDown keys = d -> heldLeft keys = l -> heldRight keys = r ->
            forall p,
              fst (candidate keys p) =
                p_x p + ((if r then 5 else 0) - (if l then 5 else 0)) /\
              snd (candidate keys p) =
                p_y p + ((if d then 5 else 0) - (if u then 5 else 0))).
  { intros keys u d l r <- <- <- <- p. unfold candidate.
    destruct (heldUp keys), (heldDown keys), (heldLeft keys), (heldRight keys);
      simpl; lia. }
  repeat split;
    match goal with
    | |- context [candidate ?keys ?p] =>
        destruct (K keys _ _ _ _ eq_refl eq_refl eq_refl eq_refl p) as [A B];
        first [ rewrite A | rewrite B ]; vm_compute; reflexivity
    end.
Qed.

(** The walk along one axis from [from] to [to], both multiples of 5 apart
    and in range. *)
Lemma walk_along (forth back : string) (dx dy : Z) (from to lo hi : Z) :
  (forall p, fst (candidate {[forth]} p) = p_x p + dx * 5 /\
             snd (candidate {[forth]} p) = p_y p + dy * 5) ->
  (forall p, fst (candidate {[back]} p) = p_x p + dx * -5 /\
             snd (candidate {[back]} p) = p_y p + dy * -5) ->
  (to - from) mod 5 = 0 ->
  let n := Z.to_nat (Z.abs (to - from) / 5) in
  let s := if from <=? to then 5 else -5 in
  (forall p, fst (candidate (keyTowards from to forth back) p) = p_x p + dx * s /\
             snd (candidate (keyTowards from to forth back) p) = p_y p + dy * s) /\
  from + Z.of_nat n * s = to /\
  (lo <= from <= hi -> lo <= to <= hi ->
   forall k, 0 <= k <= Z.of_nat n -> lo <= from + k * s <= hi).
Proof.
  intros Hf Hb Hm n s. unfold keyTowards. subst n s.
  pose proof (Z.div_mod (to - from) 5 ltac:(lia)) as D. rewrite Hm in D.
  destruct (Z.leb_spec from to) as [L|L].
  - split; [exact Hf|].
    assert (E : Z.abs (to - from) / 5 = (to - from) / 5) by (rewrite Z.abs_eq by lia; reflexivity).
    rewrite E. assert (0 <= (to - from) / 5) by (apply Z.div_pos; lia).
    rewrite Z2Nat.id by lia. split; [lia|]. intros; nia.
  - split; [exact Hb|].
    assert (E : Z.abs (to - from) / 5 = - ((to - from) / 5)).
    { rewrite Z.abs_neq by lia. replace (- (to - from)) with (- ((to - from) / 5) * 5) by lia.
      apply Z.div_mul. lia. }
    rewrite E. assert ((to - from) / 5 <= 0) by lia.
    rewrite Z2Nat.id by lia. split; [lia|]. intros; nia.
Qed.

(** The path takes the player from the start to (px, py) and lets a tick
    pass the gate there. *)
Lemma pathTo_arrives (px py : Z) (items : list Collectible) :
  20 <= px <= 780 -> 20 <= py <= 580 -> px mod 5 = 0 -> py mod 5 = 0 ->
  myPosition (fst (runFrames (pathTo px py) (initialState items))) =
    {| p_x := px; p_y := py |} /\
  exists st now,
    fst (runFrames (pathTo px py) (initialState items)) = fst (updateGame now ∅ st) /\
    gated now st = false /\
    Forall2 sameItem items (collectibles st).
Proof.
  intros Hx Hy Mx My.
  destruct candidate_steps as (Cd & Ca & Cs & Cw & C0).
  assert (Mx' : (px - 400) mod 5 = 0)
    by (rewrite Zminus_mod, Mx; reflexivity).
  assert (My' : (py - 300) mod 5 = 0)
    by (rewrite Zminus_mod, My; reflexivity).
  assert (Hd : forall p, fst (candidate {["d"]} p) = p_x p + 1 * 5 /\
                         snd (candidate {["d"]} p) = p_y p + 0 * 5)
    by (intros p; destruct (Cd p); split; lia).
  assert (Ha : forall p, fst (candidate {["a"]} p) = p_x p + 1 * -5 /\
                         snd (candidate {["a"]} p) = p_y p + 0 * -5)
    by (intros p; destruct (Ca p); split; lia).
  assert (Hs : forall p, fst (candidate {["s"]} p) = p_x p + 0 * 5 /\
                         snd (candidate {["s"]} p) = p_y p + 1 * 5)
    by (intros p; destruct (Cs p); split; lia).
  assert (Hw : forall p, fst (candidate {["w"]} p) = p_x p + 0 * -5 /\
                         snd (candidate {["w"]} p) = p_y p + 1 * -5)
    by (intros p; destruct (Cw p); split; lia).
  destruct (walk_along "d" "a" 1 0 400 px 20 780 Hd Ha Mx') as (K1 & E1 & B1).
  destruct (walk_along "s" "w" 0 1 300 py 20 580 Hs Hw My') as (K2 & E2 & B2).
  unfold pathTo.
  set (n1 := Z.to_nat (Z.abs (px - 400) / 5)) in *.
  set (n2 := Z.to_nat (Z.abs (py - 300) / 5)) in *.
  set (s1 := if 400 <=? px then 5 else -5) in *.
  set (s2 := if 300 <=? py then 5 else -5) in *.
  set (st0 := initialState items).
  (* along x *)
  destruct (walk (keyTowards 400 px "d" "a") (1 * s1) (0 * s1) K1 n1 1000 st0) as [P1 L1].
  { simpl. lia. }
  { intros k Hk. simpl. specialize (B1 ltac:(lia) ltac:(lia) k Hk). lia. }
  set (st1 := fst (runFrames (holdKeys (keyTowards 400 px "d" "a") 1000 100 n1) st0)) in *.
  simpl in P1.
  (* along y *)
  destruct (walk (keyTowards 300 py "s" "w") (0 * s2) (1 * s2) K2 n2
                 (1000 + 100 * Z.of_nat n1) st1) as [P2 L2].
  { lia. }
  { intros k Hk. rewrite P1. simpl. specialize (B2 ltac:(lia) ltac:(lia) k Hk). lia. }
  set (st2 := fst (runFrames (holdKeys (keyTowards 300 py "s" "w")
                                (1000 + 100 * Z.of_nat n1) 100 n2) st1)) in *.
  rewrite P1 in P2. simpl in P2.
  assert (Q2 : myPosition st2 = {| p_x := px; p_y := py |}) by (rewrite P2; f_equal; lia).
  (* the last frame *)
  rewrite !runFrames_app. fold st1. fold st2. cbn [runFrames].
  set (now := 1000 + 100 * Z.of_nat n1 + 100 * Z.of_nat n2).
  assert (G : gated now st2 = false) by (unfold gated, now; apply Z.ltb_ge; lia).
  pose proof (updateGame_position now ∅ st2 G) as P3.
  destruct (C0 (myPosition st2)) as [Cx Cy]. rewrite Cx, Cy, Q2 in P3. simpl in P3.
  rewrite !Z.max_r, !Z.min_r in P3 by lia.
  destruct (updateGame now ∅ st2) as [st3 ev] eqn:U. simpl in *.
  split; [rewrite P3; f_equal; lia|].
  exists st2, now. rewrite U. split; [reflexivity|]. split; [exact G|].
  unfold st2, st1, st0.
  eapply Forall2_sameItem_trans; [|apply runFrames_sameItem].
  apply (runFrames_sameItem _ (initialState items)).
Qed.

Lemma latticeBelow_near (x : Q) :
  (inject_Z (latticeBelow x) <= x)%Q /\ (x < inject_Z (latticeBelow x + 5))%Q /\
  latticeBelow x mod 5 = 0.
Proof.
  unfold latticeBelow.
  pose proof (Z.div_mod (Qfloor x) 5 ltac:(lia)) as D.
  pose proof (Z.mod_pos_bound (Qfloor x) 5 ltac:(lia)) as B.
  split; [|split].
  - eapply Qle_trans; [|apply Qfloor_le]. rewrite <- Zle_Qle. lia.
  - eapply Qlt_le_trans; [apply Qlt_floor|]. rewrite <- Zle_Qle. lia.
  - rewrite Z.mul_comm. apply Z.mod_mul. lia.
Qed.

Lemma latticeBelow_range (x : Q) (lo hi : Z) :
  lo mod 5 = 0 -> (inject_Z lo <= x)%Q -> (x < inject_Z hi)%Q ->
  lo <= latticeBelow x < hi.
Proof.
  intros Hm Hlo Hhi. unfold latticeBelow.
  assert (F : lo <= Qfloor x < hi).
  { split.
    - rewrite <- (Qfloor_Z lo). apply Qfloor_resp_le, Hlo.
    - rewrite Zlt_Qlt. eapply Qle_lt_trans; [apply Qfloor_le|exact Hhi]. }
  pose proof (Z.div_mod (Qfloor x) 5 ltac:(lia)) as D.
  pose proof (Z.mod_pos_bound (Qfloor x) 5 ltac:(lia)) as B.
  pose proof (Z.div_mod lo 5 ltac:(lia)) as Dl. rewrite Hm in Dl.
  assert (lo / 5 <= Qfloor x / 5) by (apply Z.div_le_mono; lia).
  lia.
Qed.

Lemma square_below_25 (x : Q) (p : Z) :
  (inject_Z p <= x)%Q -> (x < inject_Z (p + 5))%Q ->
  ((x - inject_Z p) * (x - inject_Z p) < 25)%Q.
Proof.
  intros Hlo Hhi.
  assert (A : (0 <= x - inject_Z p)%Q).
  { apply (Qplus_le_l _ _ (inject_Z p)). ring_simplify. exact Hlo. }
  assert (B : (x - inject_Z p < 5)%Q).
  { apply (Qplus_lt_l _ _ (inject_Z p)). ring_simplify.
    rewrite inject_Z_plus in Hhi. exact Hhi. }
  change 25%Q with (5 * 5)%Q. apply Qmult_lt_compat_nonneg; split; assumption.
Qed.

Lemma collides_at_lattice (item : Collectible) :
  collides 20 (latticeBelow (c_x item)) (latticeBelow (c_y item)) item = true.
Proof.
  unfold collides, Qltb.
  destruct (latticeBelow_near (c_x item)) as (X1 & X2 & _).
  destruct (latticeBelow_near (c_y item)) as (Y1 & Y2 & _).
  pose proof (square_below_25 _ _ X1 X2) as Sx.
  pose proof (square_below_25 _ _ Y1 Y2) as Sy.
  apply negb_true_iff. destruct (Qle_bool _ _) eqn:E; [|reflexivity].
  apply Qle_bool_iff in E. exfalso.
  pose proof (Qplus_lt_compat _ _ _ _ Sx Sy) as S.
  apply (Qlt_irrefl (inject_Z ((20 + 15) * (20 + 15)))).
  eapply Qle_lt_trans; [exact E|]. eapply Qlt_trans; [exact S|]. reflexivity.
Qed.

Lemma Forall2_nth_error {A B : Type} (R : A -> B -> Prop) (l : list A) (l' : list B)
    (i : nat) (a : A) :
  Forall2 R l l' -> nth_error l i = Some a ->
  exists b, nth_error l' i = Some b /\ R a b.
Proof.
  intros F. revert i. induction F as [|x y l l' Hxy _ IH]; intros [|i] H;
    simpl in *; try discriminate.
  - injection H as <-. eauto.
  - apply IH, H.
Qed.

(** X25. Every item of a generated field can be collected: for each item
    there is a run of frames from the start of the session (walk along x,
    then along y, then stand still for a frame) after which that item, and
    no other item in its place, has its collected flag set. *)
Theorem every_item_can_be_collected
    (clock : nat -> Z) (rnd : nat -> Q) (items : list Collectible)
    (i : nat) (item : Collectible) :
  (forall k, (0 <= rnd k)%Q /\ (rnd k < 1)%Q) ->
  initializeCollectibles clock rnd = Some items ->
  nth_error items i = Some item ->
  exists item',
    nth_error (collectibles (fst (runFrames (pathToItem item) (initialState items)))) i
      = Some item' /\
    c_collected item' = true /\ c_id item' = c_id item /\
    c_x item' = c_x item /\ c_y item' = c_y item.
Proof.
  intros Hrnd Hinit Hn.
  destruct (pushCollectibles_positions _ _ _ _ _ Hinit i item Hn) as [Ex Ey].
  cbn [Nat.add] in Ex, Ey.
  destruct (Hrnd (3 * i + 1)%nat) as [X0 X1]. destruct (Hrnd (3 * i + 2)%nat) as [Y0 Y1].
  destruct (scaled_draw_bounds (rnd (3 * i + 1)%nat) 750 ltac:(lia) X0 X1) as [A B].
  destruct (scaled_draw_bounds (rnd (3 * i + 2)%nat) 550 ltac:(lia) Y0 Y1) as [C D].
  assert (A' : (inject_Z 25 <= c_x item)%Q) by (rewrite Ex; exact A).
  assert (B' : (c_x item < inject_Z 775)%Q) by (rewrite Ex; exact B).
  assert (C' : (inject_Z 25 <= c_y item)%Q) by (rewrite Ey; exact C).
  assert (D' : (c_y item < inject_Z 575)%Q) by (rewrite Ey; exact D).
  pose proof (latticeBelow_range (c_x item) 25 775 eq_refl A' B') as Rx.
  pose proof (latticeBelow_range (c_y item) 25 575 eq_refl C' D') as Ry.
  destruct (latticeBelow_near (c_x item)) as (_ & _ & Mx).
  destruct (latticeBelow_near (c_y item)) as (_ & _ & My).
  destruct (pathTo_arrives (latticeBelow (c_x item)) (latticeBelow (c_y item)) items)
    as (P & st & now & E & G & Same); try lia.
  unfold pathToItem. rewrite E in *.
  assert (Flags : Forall2 (fun old new =>
                     c_collected new =
                     c_collected old ||
                     collides 20 (p_x (myPosition (fst (updateGame now ∅ st))))
                              (p_y (myPosition (fst (updateGame now ∅ st)))) old)
                    (collectibles st) (collectibles (fst (updateGame now ∅ st)))).
  { destruct (updateGame_score now ∅ st G) as (_ & Ec & _). rewrite Ec.
    apply collectMap_flags. }
  pose proof (updateGame_sameItem now ∅ st) as Same2.
  rewrite P in Flags. simpl in Flags.
  destruct (Forall2_nth_error _ _ _ _ _ Same Hn) as (mid & Hmid & S1).
  destruct (Forall2_nth_error _ _ _ _ _ Same2 Hmid) as (item' & Hitem' & S2).
  destruct (Forall2_nth_error _ _ _ _ _ Flags Hmid) as (item'' & Hitem'' & F).
  assert (item'' = item') by congruence. subst item''.
  exists item'. split; [exact Hitem'|].
  destruct S1 as (I1 & X1' & Y1' & _). destruct S2 as (I2 & X2' & Y2' & _).
  split; [|repeat split; congruence].
  rewrite F. apply orb_true_iff. right.
  unfold collides in *. rewrite X1', Y1'. apply collides_at_lattice.
Qed.

(* ===================================================================== *)
(** ** More of the worked session, checked *)
(* ===================================================================== *)

Lemma sampleRnd_unit (k : nat) : (0 <= sampleRnd k)%Q /\ (sampleRnd k < 1)%Q.
Proof.
  unfold sampleRnd, Qle, Qlt. simpl.
  pose proof (Nat.mod_upper_bound k 7 ltac:(lia)). lia.
Qed.

(** A shifted letter is ignored on the way down but releases on the way up. *)
Example shifted_letter_keys :
  handleKeyEvents [KeyDown "W"] ∅ = ∅ /\
  handleKeyEvents [KeyDown "w"; KeyUp "W"] ∅ = ∅ /\
  has (handleKeyEvents sampleKeyEvents ∅) "d" = true /\
  has (handleKeyEvents sampleKeyEvents ∅) "arrowup" = false /\
  has (handleKeyEvents sampleKeyEvents ∅) "w" = false.
Proof. vm_compute. repeat split; reflexivity. Qed.

Example clock_examples :
  formatTime 60 = "1:00"%string /\ formatTime 59 = "0:59"%string /\
  formatTime 5 = "0:05"%string /\ formatTime 0 = "0:00"%string.
Proof. vm_compute. repeat split; reflexivity. Qed.

(** An item at distance exactly 35 is not in range; a hair closer it is. *)
Example range_is_strict :
  collides 20 400 300 (mkCollectible "a" 421 328 coin 10 false) = false /\
  collides 20 400 300 (mkCollectible "b" 421 (3279 # 10) coin 10 false) = true.
Proof. vm_compute. split; reflexivity. Qed.

Example trim_examples :
  trim [32; 9; 97; 32; 98; 160; 10]%N = [97; 32; 98]%N /\
  trim [32; 8195; 12288]%N = [] /\
  sendMessage "room-1" "me" [32; 104; 105; 32]%N =
    ([], [ {| ci_room_id := "room-1"; ci_player_id := "me"; ci_message := [104; 105]%N |} ]).
Proof. vm_compute. repeat split; reflexivity. Qed.

Lemma held_keys_are_movement_ids_witness :
  "d" ∈ handleKeyEvents sampleKeyEvents ∅ /\ In "d"%string keyIds.
Proof.
  assert (H : "d" ∈ handleKeyEvents sampleKeyEvents ∅)
    by (apply (bool_decide_eq_true_1 _); vm_compute; reflexivity).
  split; [exact H|]. exact (held_keys_are_movement_ids sampleKeyEvents "d" H).
Defined.

Lemma tick_collects_items_in_range_witness :
  gated 1320 sampleBefore = false /\
  remaining (collectibles sampleBefore) = 20%nat /\
  remaining (collectibles (fst (updateGame 1320 {["s"]} sampleBefore))) = 17%nat /\
  Forall2 (fun old new =>
             (c_collected old = true -> c_collected new = true) /\
             ((distanceSquared 455 385 old <= insideRange)%Q -> c_collected new = true) /\
             ((outsideRange <= distanceSquared 455 385 old)%Q ->
              c_collected new = c_collected old))
          (collectibles sampleBefore)
          (collectibles (fst (updateGame 1320 {["s"]} sampleBefore))).
Proof.
  assert (G : gated 1320 sampleBefore = false) by (vm_compute; reflexivity).
  split; [exact G|]. split; [vm_compute; reflexivity|]. split; [vm_compute; reflexivity|].
  pose proof (tick_collects_items_in_range 1320 {["s"]} sampleBefore G) as F.
  cbv zeta in F.
  change (p_x (myPosition (fst (updateGame 1320 {["s"]} sampleBefore)))) with 455 in F.
  change (p_y (myPosition (fst (updateGame 1320 {["s"]} sampleBefore)))) with 385 in F.
  exact F.
Defined.

Lemma generated_items_lie_inside_the_margin_witness :
  initializeCollectibles sampleClock sampleRnd = Some sampleItems /\
  nth_error sampleItems 0 = Some sampleItem0 /\
  (25 <= c_x sampleItem0)%Q /\ (c_x sampleItem0 < 775)%Q /\
  (25 <= c_y sampleItem0)%Q /\ (c_y sampleItem0 < 575)%Q.
Proof.
  assert (I : initializeCollectibles sampleClock sampleRnd = Some sampleItems)
    by (vm_compute; reflexivity).
  assert (N : nth_error sampleItems 0 = Some sampleItem0) by reflexivity.
  split; [exact I|]. split; [exact N|].
  destruct (generated_items_lie_inside_the_margin sampleClock sampleRnd sampleItems
              0 sampleItem0 sampleRnd_unit I N) as (_ & _ & A & B & C & D).
  repeat split; assumption.
Defined.

Lemma opposite_keys_cancel_witness :
  let keys : gset string := {["w"; "s"]} in
  let st := initialState [] in
  gated 1000 st = false /\ inArena (myPosition st) /\
  heldUp keys = heldDown keys /\ heldLeft keys = heldRight keys /\
  myPosition (fst (updateGame 1000 keys st)) = myPosition st.
Proof.
  intros keys st.
  assert (G : gated 1000 st = false) by reflexivity.
  assert (A : inArena (myPosition st)) by (unfold inArena; simpl; lia).
  assert (V : heldUp keys = heldDown keys) by (vm_compute; reflexivity).
  assert (H : heldLeft keys = heldRight keys) by (vm_compute; reflexivity).
  destruct (opposite_keys_cancel 1000 keys st G A) as (_ & _ & Both).
  destruct (Both V H) as [P _].
  split; [exact G|]. split; [exact A|]. split; [exact V|]. split; [exact H|exact P].
Defined.

Lemma rank_improves_with_local_score_witness :
  existsb (isMe "me") specRoom = true /\ 10 <= 50 /\
  myRank "me" 50 specRoom <= myRank "me" 10 specRoom.
Proof.
  assert (H : existsb (isMe "me") specRoom = true) by reflexivity.
  assert (L : 10 <= 50) by lia.
  split; [exact H|]. split; [exact L|].
  exact (rank_improves_with_local_score "me" 10 50 specRoom H L).
Defined.

Lemma rank_ignores_own_mirror_witness :
  Forall2 (sameButMirrorOf "me") specRoom specRoomStale /\
  myRank "me" 50 specRoom = myRank "me" 50 specRoomStale.
Proof.
  assert (F : Forall2 (sameButMirrorOf "me") specRoom specRoomStale).
  { unfold specRoom, specRoomStale, sameButMirrorOf.
    repeat constructor; simpl; intros C; try reflexivity; contradiction C; reflexivity. }
  split; [exact F|]. exact (rank_ignores_own_mirror "me" 50 specRoom specRoomStale F).
Defined.

Lemma avatar_colour_is_uniform_over_palette_witness :
  (0 <= 1 # 2)%Q /\ (1 # 2 < 1)%Q /\ pickColor (1 # 2) = Some "#F59E0B"%string.
Proof.
  assert (H0 : (0 <= 1 # 2)%Q) by (unfold Qle; simpl; lia).
  assert (H1 : (1 # 2 < 1)%Q) by (unfold Qlt; simpl; lia).
  split; [exact H0|]. split; [exact H1|].
  destruct (avatar_colour_is_uniform_over_palette (1 # 2) H0 H1) as [_ U].
  apply (U 3%nat "#F59E0B"%string eq_refl).
  - unfold Qle. simpl. lia.
  - unfold drawMargin, Qlt. simpl. lia.
Defined.

Lemma every_item_can_be_collected_witness :
  exists item',
    nth_error (collectibles (fst (runFrames (pathToItem sampleItem0)
                                            (initialState sampleItems)))) 0 = Some item' /\
    c_collected item' = true /\ c_id item' = c_id sampleItem0.
Proof.
  assert (I : initializeCollectibles sampleClock sampleRnd = Some sampleItems)
    by (vm_compute; reflexivity).
  destruct (every_item_can_be_collected sampleClock sampleRnd sampleItems 0 sampleItem0
              sampleRnd_unit I eq_refl) as (item' & N & C & Id & _).
  exists item'. auto.
Defined.
